(** * ai-interprep: the retrieval pipeline

    A shallow embedding of [ingest.py], [ingest_technical_qa.py] and
    [rag_api.py]: chunking, embedding with its fallback request, batched
    index construction and the over-fetch-and-deduplicate ranking of the
    retrieval endpoint.

    Python [str] values are [string]s, one [ascii] per character; [int]s are
    [Z]; a [dict] read with [.get] is a record of [option]s or a [gmap], and
    a subscript of a key that is missing raises [KeyError]; an exception is
    the [Raise] case of [result].  The embedding service, the text splitter
    and the vector store are libraries outside the repository: the first
    two are fields of [Services], the third is the [VectorIndex] module,
    and the endpoint is also given with the answers of the store's query as
    a parameter. *)

From Stdlib Require Import ZArith Lia Ascii String.
From stdpp Require Import base option list gmap strings sorting pretty.

Local Open Scope Z_scope.

(** ** Python strings *)

Module PyStr.

(** [c.isspace()] on the characters U+0000..U+00FF. *)
Definition isspace (c : ascii) : bool :=
  let n := nat_of_ascii c in
  ((9 <=? n) && (n <=? 13) || (28 <=? n) && (n <=? 32)
   || (n =? 133) || (n =? 160))%nat.

Fixpoint lstrip (s : string) : string :=
  match s with
  | EmptyString => EmptyString
  | String c s' => if isspace c then lstrip s' else s
  end.

Definition rstrip (s : string) : string := String.rev (lstrip (String.rev s)).

(** [s.strip()] *)
Definition strip (s : string) : string := rstrip (lstrip s).

(** Truth value of a string: [if s], [not s]. *)
Definition truthy (s : string) : bool :=
  match s with EmptyString => false | _ => true end.

Definition len (s : string) : Z := Z.of_nat (String.length s).

(** [s.lower()] on ASCII letters.  No other character lower-cases to one
    of q, u, e, r, y, so the membership test of [rag_api.get_embedding] and
    the comparison of the answer at the prompt with ['y'] are the same on
    the full mapping. *)
Definition lower_char (c : ascii) : ascii :=
  let n := nat_of_ascii c in
  if ((65 <=? n) && (n <=? 90))%nat then ascii_of_nat (n + 32) else c.

Fixpoint lower (s : string) : string :=
  match s with
  | EmptyString => EmptyString
  | String c s' => String (lower_char c) (lower s')
  end.

(** [sub in s] *)
Fixpoint contains (sub s : string) : bool :=
  String.prefix sub s
  || match s with
     | EmptyString => false
     | String _ s' => contains sub s'
     end.

(** [s[:n]] for [n >= 0] *)
Definition slice_to (n : nat) (s : string) : string := String.substring 0 n s.

(** [sep.join(l)] *)
Definition join (sep : string) (l : list string) : string := String.concat sep l.

(** [str(z)], as an f-string prints an [int]. *)
Definition of_int (z : Z) : string := pretty z.

(** Every character is white space: what [len(s.strip()) == 0] and
    [not s.strip()] test. *)
Fixpoint all_space (s : string) : bool :=
  match s with
  | EmptyString => true
  | String c s' => isspace c && all_space s'
  end.

End PyStr.

(** ** Exceptions *)

Inductive exn : Type :=
  | Exception (msg : string)
  | HTTPException (status_code : Z) (detail : string)
  | KeyError (key : string)
  | ValidationError (field : string)
  | SystemExit (code : Z).

(** [str(e)] *)
Definition exn_str (e : exn) : string :=
  match e with
  | Exception msg => msg
  | HTTPException _ detail => detail
  | KeyError key => "'" +:+ key +:+ "'"
  | ValidationError field => "validation error for " +:+ field
  | SystemExit code => PyStr.of_int code
  end.

Inductive result (A : Type) : Type :=
  | Ok (a : A)
  | Raise (e : exn).
Arguments Ok {A} a.
Arguments Raise {A} e.

(** ** The services outside the repository *)

(** An embedding vector.  Its components are floats in the source; nothing
    below looks inside a vector, distances are taken by the store's metric. *)
Definition Embedding : Type := list Z.

(** One call [genai.embed_content(model=..., content=..., task_type=...)];
    [task_type = None] is the call that leaves the argument out. *)
Record EmbedRequest : Type := MkEmbedRequest {
  req_model : string;
  req_content : string;
  req_task_type : option string;
}.

Global Instance EmbedRequest_eq_dec : EqDecision EmbedRequest.
Proof. solve_decision. Defined.

(** What comes of one call: the vector under the ['embedding'] key of the
    response, or an [Exception] (a transport or API error, a response without
    the key) with its message. *)
Inductive reply : Type :=
  | Vector (v : Embedding)
  | Failure (msg : string).

Record Services : Type := MkServices {
  (** the embedding service: what comes of a request, given the requests
      made before it *)
  embed_content : list EmbedRequest → EmbedRequest → reply;
  (** [RecursiveCharacterTextSplitter(chunk_size, chunk_overlap,
      length_function=len, separators).split_text(text)] *)
  split_text : Z → Z → list string → string → result (list string);
  (** the distance of the store's metric between two vectors *)
  distance : Embedding → Embedding → Z;
}.

(** ** The vector store *)

Module VectorIndex.

(** A metadata value of an index entry: the pipeline stores [int]s and
    [str]s only. *)
Inductive MetaValue : Type :=
  | MInt (z : Z)
  | MStr (s : string).

Global Instance MetaValue_eq_dec : EqDecision MetaValue.
Proof. solve_decision. Defined.

Global Instance MetaValue_countable : Countable MetaValue.
Proof.
  refine (inj_countable'
    (λ v, match v with MInt z => inl z | MStr s => inr s end)
    (λ x, match x with inl z => MInt z | inr s => MStr s end) _).
  by intros [].
Defined.

Abbreviation Metadata := (gmap string MetaValue).

Record IndexEntry : Type := MkIndexEntry {
  entry_embedding : Embedding;
  entry_document : string;
  entry_metadata : Metadata;
}.

(** A collection: the entries under their ids. *)
Abbreviation Collection := (gmap string IndexEntry).

(** A client of the persistent store: the collections under their names. *)
Abbreviation Client := (gmap string Collection).

(** [client.get_collection(name)] raises when there is no such collection. *)
Definition get_collection (client : Client) (name : string) : result Collection :=
  match client !! name with
  | Some c => Ok c
  | None => Raise (Exception ("Collection " +:+ name +:+ " does not exist."))
  end.

Definition create_collection (client : Client) (name : string) : Client :=
  <[name := ∅]> client.

Definition delete_collection (client : Client) (name : string) : Client :=
  delete name client.

(** [collection.count()] *)
Definition count (c : Collection) : Z := Z.of_nat (size c).

(** The four parallel lists of one write, entry by entry. *)
Definition entries_of (ids : list string) (embeddings : list Embedding)
    (documents : list string) (metadatas : list Metadata)
  : list (string * IndexEntry) :=
  zip ids (zip_with (λ e dm, MkIndexEntry e dm.1 dm.2) embeddings
                    (zip documents metadatas)).

Definition write_entry (c : Collection) (kv : string * IndexEntry) : Collection :=
  <[kv.1 := kv.2]> c.

(** Modelled from the spec: the write of the vector store behind
    [collection.add(ids=..., embeddings=..., documents=..., metadatas=...)],
    a library call whose code is not in the repository.  The spec's
    [upsert]: the entry id is the primary key, and a write under an id that
    is present replaces the entry. *)
Definition add (c : Collection) (ids : list string) (embeddings : list Embedding)
    (documents : list string) (metadatas : list Metadata) : Collection :=
  foldl write_entry c (entries_of ids embeddings documents metadatas).

(** [a] is at most as far from the query vector as [b]. *)
Definition nearer (d : Embedding → Z) (a b : string * IndexEntry) : Prop :=
  d (entry_embedding a.2) ≤ d (entry_embedding b.2).

Global Instance nearer_dec d a b : Decision (nearer d a b).
Proof. unfold nearer. apply _. Defined.

(** All entries of the collection, nearest to [q] first. *)
Definition ranking (sv : Services) (c : Collection) (q : Embedding)
  : list (string * IndexEntry) :=
  merge_sort (nearer (distance sv q)) (map_to_list c).

(** Modelled from the spec: the nearest-neighbour query of the vector store
    behind [collection.query(query_embeddings=[q], n_results=n)], a library
    call whose code is not in the repository.  The spec's [query]: the [n]
    nearest entries by the store's metric, nearest first, as pairs of
    [results['ids'][0][i]] and [results['metadatas'][0][i]].  The spec
    says nothing of an [n] of zero or less; this store then answers with no
    entry.  What the endpoint makes of any other answer, an exception
    among them, is read off [RagApi.retrieve_experiences_with], which takes
    the answers of the store as a parameter. *)
Definition query (sv : Services) (c : Collection) (q : Embedding) (n : Z)
  : result (list (string * Metadata)) :=
  Ok ((λ kv, (kv.1, entry_metadata kv.2)) <$> take (Z.to_nat n) (ranking sv c q)).

End VectorIndex.

Import VectorIndex.

(** ** The process and its surroundings *)

(** What a run reads and changes outside itself. *)
Record World : Type := MkWorld {
  (** [os.getenv("GEMINI_API_KEY")] *)
  GEMINI_API_KEY : option string;
  (** the store under [./chroma_db]; [None] when the directory is absent *)
  chroma_db : option Client;
  (** the requests sent to the embedding service so far *)
  embed_log : list EmbedRequest;
  (** the [n_results] of the queries sent to the store so far *)
  query_log : list Z;
}.

(** A computation that may change the world and may raise. *)
Definition M (A : Type) : Type := World → World * result A.

Definition ret {A} (a : A) : M A := λ w, (w, Ok a).

Definition raise {A} (e : exn) : M A := λ w, (w, Raise e).

Definition bind {A B} (m : M A) (k : A → M B) : M B :=
  λ w, match m w with
       | (w', Ok a) => k a w'
       | (w', Raise e) => (w', Raise e)
       end.

Notation "'let!' x := m 'in' k" := (bind m (λ x, k))
  (at level 10, x name, m at level 200, k at level 200).

Definition lift {A} (r : result A) : M A := λ w, (w, r).

(** [try: m except Exception as e: h e]; [SystemExit] is no [Exception]. *)
Definition try_except {A} (m : M A) (h : exn → M A) : M A :=
  λ w, match m w with
       | (w', Ok a) => (w', Ok a)
       | (w', Raise (SystemExit code)) => (w', Raise (SystemExit code))
       | (w', Raise e) => h e w'
       end.

(** One call of [genai.embed_content], recorded in the log. *)
Definition call_embed_content (sv : Services) (r : EmbedRequest) : M Embedding :=
  λ w, (MkWorld (GEMINI_API_KEY w) (chroma_db w) (embed_log w ++ [r]) (query_log w),
        match embed_content sv (embed_log w) r with
        | Vector v => Ok v
        | Failure msg => Raise (Exception msg)
        end).

(** What a store answers to [collection.query(query_embeddings=[q],
    n_results=n)]: the pairs of [results['ids'][0][i]] and
    [results['metadatas'][0][i]], or an exception. *)
Definition Search : Type :=
  Collection → Embedding → Z → result (list (string * Metadata)).

(** One call of [collection.query] on a store that answers as [search],
    recorded in the log. *)
Definition call_store_query (search : Search) (c : Collection) (q : Embedding) (n : Z)
  : M (list (string * Metadata)) :=
  λ w, (MkWorld (GEMINI_API_KEY w) (chroma_db w) (embed_log w) (query_log w ++ [n]),
        search c q n).

(** The same on the store of the spec. *)
Definition call_query (sv : Services) (c : Collection) (q : Embedding) (n : Z)
  : M (list (string * Metadata)) :=
  call_store_query (query sv) c q n.

Definition getenv_GEMINI_API_KEY : M (option string) :=
  λ w, (w, Ok (GEMINI_API_KEY w)).

Definition open_chroma_db : M (option Client) :=
  λ w, (w, Ok (chroma_db w)).

(** ** rag_api.py *)

Module RagApi.

Record RetrieveRequest : Type := MkRetrieveRequest {
  query : string;
  top_k : Z;
}.

Record Experience : Type := MkExperience {
  id : Z;
  title : string;
  company : string;
  star_format : string;
}.

Record RetrieveResponse : Type := MkRetrieveResponse {
  experiences : list Experience;
}.

(** The [task_type] of the first request of [get_embedding]. *)
Definition task_type_of (text : string) : string :=
  if PyStr.contains "query" (PyStr.lower text)
  then "retrieval_query" else "retrieval_document".

Definition get_embedding (sv : Services) (text : string) : M Embedding :=
  try_except
    (call_embed_content sv
       (MkEmbedRequest "models/embedding-001" text (Some (task_type_of text))))
    (λ e,
       try_except
         (call_embed_content sv (MkEmbedRequest "models/embedding-001" text None))
         (λ e2, raise (Exception ("Error generating embedding: " +:+ exn_str e2)))).

(** [metadata.get('experience_id', metadata.get('id'))]; [None] is Python's. *)
Definition experience_id_of (metadata : Metadata) : option MetaValue :=
  match metadata !! "experience_id" with
  | Some v => Some v
  | None => metadata !! "id"
  end.

(** [Experience(id=experience_id, title=metadata['title'],
    company=metadata['company'], star_format=metadata['star_format'])]:
    the three subscripts raise [KeyError] in this order, then the model's
    validation wants an [int] and three [str]s (no conversion of a value of
    another type is modelled). *)
Definition make_experience (experience_id : option MetaValue) (metadata : Metadata)
  : result Experience :=
  match metadata !! "title" with
  | None => Raise (KeyError "title")
  | Some t =>
    match metadata !! "company" with
    | None => Raise (KeyError "company")
    | Some c =>
      match metadata !! "star_format" with
      | None => Raise (KeyError "star_format")
      | Some s =>
        match experience_id, t, c, s with
        | Some (MInt i), MStr t', MStr c', MStr s' => Ok (MkExperience i t' c' s')
        | _, _, _, _ => Raise (ValidationError "Experience")
        end
      end
    end
  end.

(** The body of [for i, chunk_id in enumerate(results['ids'][0])], with the
    list [experiences] and the set [seen_experience_ids] as they stand. *)
Fixpoint dedup_loop (top_k : Z) (results : list (string * Metadata))
    (experiences : list Experience) (seen_experience_ids : gset (option MetaValue))
  : result (list Experience) :=
  match results with
  | [] => Ok experiences
  | (chunk_id, metadata) :: rest =>
    let experience_id := experience_id_of metadata in
    if decide (experience_id ∈ seen_experience_ids) then
      (* continue *)
      dedup_loop top_k rest experiences seen_experience_ids
    else if decide (top_k ≤ Z.of_nat (length experiences)) then
      (* break *)
      Ok experiences
    else
      match make_experience experience_id metadata with
      | Ok e =>
        dedup_loop top_k rest (experiences ++ [e])
                   ({[experience_id]} ∪ seen_experience_ids)
      | Raise err => Raise err
      end
  end.

(** "Format results and deduplicate by experience_id". *)
Definition format_results (top_k : Z) (results : list (string * Metadata))
  : result (list Experience) :=
  match results with
  | [] => Ok []
  | _ :: _ => dedup_loop top_k results [] ∅
  end.

(** [n_results] of the query. *)
Definition n_results (top_k : Z) (collection : Collection) : Z :=
  Z.min (top_k * 3) (count collection).

(** [retrieve_experiences], with the answers of [collection.query], a call
    of the store's library, as the parameter [search]. *)
Definition retrieve_experiences_with (sv : Services) (search : Search)
    (request : RetrieveRequest) : M RetrieveResponse :=
  let! api_key := getenv_GEMINI_API_KEY in
  if negb (from_option PyStr.truthy false api_key) then
    raise (HTTPException 500 "GEMINI_API_KEY not set")
  else
    let! db := open_chroma_db in
    match db with
    | None =>
      raise (HTTPException 500 "ChromaDB not initialized. Please run ingest.py first.")
    | Some client =>
      let! collection :=
        try_except (lift (get_collection client "experience_store"))
          (λ e, raise (HTTPException 500 ("Error accessing ChromaDB: " +:+ exn_str e))) in
      let! query_embedding :=
        try_except (get_embedding sv (query request))
          (λ e, raise (HTTPException 500
                         ("Error generating query embedding: " +:+ exn_str e))) in
      let! results :=
        try_except
          (call_store_query search collection query_embedding
                            (n_results (top_k request) collection))
          (λ e, raise (HTTPException 500 ("Error querying ChromaDB: " +:+ exn_str e))) in
      let! experiences := lift (format_results (top_k request) results) in
      ret (MkRetrieveResponse experiences)
    end.

(** The endpoint on the store of the spec. *)
Definition retrieve_experiences (sv : Services) (request : RetrieveRequest)
  : M RetrieveResponse :=
  retrieve_experiences_with sv (VectorIndex.query sv) request.

End RagApi.

(** ** What the ingestion scripts share *)

(** The line feed of ["\n"]. *)
Definition nl : string := String (ascii_of_nat 10) EmptyString.

(** The double quote of the STAR text. *)
Definition dq : string := String (ascii_of_nat 34) EmptyString.

(** [separators=["\n\n", "\n", ". ", " ", ""]] *)
Definition separators : list string := [nl +:+ nl; nl; ". "; " "; ""].

(** [enumerate(l)] *)
Definition enumerate {A} (l : list A) : list (nat * A) := zip (seq 0 (length l)) l.

(** [l[start:stop]] for [0 <= start <= stop] *)
Definition slice {A} (start stop : nat) (l : list A) : list A :=
  take (stop - start) (drop start l).

(** The lists [ids], [embeddings], [documents], [metadatas] that [main]
    fills, and its [chunk_count]. *)
Record Pending : Type := MkPending {
  ids : list string;
  embeddings : list Embedding;
  documents : list string;
  metadatas : list Metadata;
  chunk_count : Z;
}.

Definition no_pending : Pending := MkPending [] [] [] [] 0.

(** The four [append]s of one stored chunk. *)
Definition append_entry (p : Pending) (chunk_id : string) (embedding : Embedding)
    (document : string) (metadata : Metadata) (counted : Z) : Pending :=
  MkPending (ids p ++ [chunk_id]) (embeddings p ++ [embedding])
            (documents p ++ [document]) (metadatas p ++ [metadata])
            (chunk_count p + counted).

Definition set_chroma_db (client : Client) : M unit :=
  λ w, (MkWorld (GEMINI_API_KEY w) (Some client) (embed_log w) (query_log w), Ok tt).

(** [collection.add(...)] on the collection called [name] of the store. *)
Definition call_add (name : string) (batch_ids : list string)
    (batch_embeddings : list Embedding) (batch_documents : list string)
    (batch_metadatas : list Metadata) : M unit :=
  let! db := open_chroma_db in
  let client := default ∅ db in
  set_chroma_db
    (<[name := add (default ∅ (client !! name)) batch_ids batch_embeddings
                   batch_documents batch_metadatas]> client).

Definition batch_size : nat := 100.

(** [for batch_idx in range(total_batches)]: one [collection.add] per batch. *)
Fixpoint store_batches (name : string) (p : Pending) (batch_idxs : list nat) : M unit :=
  match batch_idxs with
  | [] => ret tt
  | batch_idx :: rest =>
    let start_idx := (batch_idx * batch_size)%nat in
    let end_idx := ((batch_idx + 1) * batch_size `min` length (ids p))%nat in
    let! _ := call_add name (slice start_idx end_idx (ids p))
                (slice start_idx end_idx (embeddings p))
                (slice start_idx end_idx (documents p))
                (slice start_idx end_idx (metadatas p)) in
    store_batches name p rest
  end.

(** "Batch add to ChromaDB". *)
Definition batch_add (name : string) (p : Pending) : M unit :=
  match ids p with
  | [] => ret tt
  | _ :: _ =>
    let total_batches := ((length (ids p) + batch_size - 1) / batch_size)%nat in
    store_batches name p (seq 0 total_batches)
  end.

(** The collection a run writes to: none yet, one found and kept (the run
    ends there), one found and recreated on the answer [y]. *)
Definition prepare_collection (name : string) (answer : string) : M bool :=
  let! db := open_chroma_db in
  let client := default ∅ db in
  match get_collection client name with
  | Ok _ =>
    if bool_decide (PyStr.lower (PyStr.strip answer) = "y") then
      let! _ := set_chroma_db
                  (create_collection (delete_collection client name) name) in
      ret true
    else
      let! _ := set_chroma_db client in
      ret false
  | Raise _ =>
    let! _ := set_chroma_db (create_collection client name) in
    ret true
  end.

(** ** ingest.py *)

Module Ingest.

(** One experience of [experiences.json].  [id], [title] and [company] are
    subscripted for every record that is processed; the other keys are
    read with [.get] somewhere in [main], and [None] is a record without
    the key. *)
Record experience : Type := MkExperienceRecord {
  exp_id : Z;
  exp_title : string;
  exp_company : string;
  exp_description : option string;
  exp_situation : option string;
  exp_task : option string;
  exp_action : option string;
  exp_result : option string;
}.

Definition chunk_description (sv : Services) (description : string)
    (chunk_size chunk_overlap : Z) : result (list string) :=
  if negb (PyStr.truthy description) || (PyStr.len (PyStr.strip description) =? 0) then
    Ok (if PyStr.truthy description then [description] else [""])
  else
    split_text sv chunk_size chunk_overlap separators description.

Definition get_embedding (sv : Services) (text : string) : M Embedding :=
  try_except
    (call_embed_content sv
       (MkEmbedRequest "models/embedding-001" text (Some "retrieval_document")))
    (λ e,
       try_except
         (call_embed_content sv (MkEmbedRequest "models/embedding-001" text None))
         (λ e2, raise e2)).

(** [experience[key]] for one of the keys read with a subscript here and
    with [.get] elsewhere: [KeyError] for a record without the key. *)
Definition subscript (key : string) (value : option string) : result string :=
  match value with
  | Some s => Ok s
  | None => Raise (KeyError key)
  end.

(** The f-string subscripts [situation], [task], [action] and [result], in
    this order. *)
Definition create_star_format_text (exp : experience) : result string :=
  match subscript "situation" (exp_situation exp) with
  | Raise e => Raise e
  | Ok situation =>
    match subscript "task" (exp_task exp) with
    | Raise e => Raise e
    | Ok task =>
      match subscript "action" (exp_action exp) with
      | Raise e => Raise e
      | Ok action =>
        match subscript "result" (exp_result exp) with
        | Raise e => Raise e
        | Ok result_text =>
          Ok ("EXPERIENCE " +:+ PyStr.of_int (exp_id exp) +:+ " - " +:+ exp_title exp
              +:+ ":" +:+ nl
              +:+ "Situation: " +:+ dq +:+ situation +:+ dq +:+ nl +:+ nl
              +:+ "Task: " +:+ dq +:+ task +:+ dq +:+ nl +:+ nl
              +:+ "Action: " +:+ dq +:+ action +:+ dq +:+ nl +:+ nl
              +:+ "Result: " +:+ dq +:+ result_text +:+ dq +:+ nl)
        end
      end
    end
  end.

(** The document of a record whose description is missing or blank. *)
Definition full_experience_text (exp : experience) : string :=
  "Title: " +:+ exp_title exp +:+ nl +:+ "Company: " +:+ exp_company exp +:+ nl
  +:+ "Situation: " +:+ default "" (exp_situation exp) +:+ nl
  +:+ "Task: " +:+ default "" (exp_task exp) +:+ nl
  +:+ "Action: " +:+ default "" (exp_action exp) +:+ nl
  +:+ "Result: " +:+ default "" (exp_result exp).

Definition with_context (exp : experience) (chunk : string) : string :=
  "Title: " +:+ exp_title exp +:+ nl +:+ "Company: " +:+ exp_company exp +:+ nl
  +:+ "Description: " +:+ chunk.

(** The texts that are embedded for one experience. *)
Definition description_chunks (sv : Services) (exp : experience) : result (list string) :=
  match chunk_description sv (default "" (exp_description exp)) 300 50 with
  | Raise e => Raise e
  | Ok chunks =>
    let no_description :=
      match chunks with
      | [] => true
      | [c] => negb (PyStr.truthy (PyStr.strip c))
      | _ => false
      end in
    Ok (if no_description then [full_experience_text exp]
        else with_context exp <$> chunks)
  end.

Definition chunk_id_of (exp : experience) (chunk_idx : nat) : string :=
  "exp_" +:+ PyStr.of_int (exp_id exp) +:+ "_chunk_" +:+ PyStr.of_int (Z.of_nat chunk_idx).

(** The metadata of a chunk, with the STAR text that
    [create_star_format_text(exp)] returned. *)
Definition metadata_of (exp : experience) (chunk_idx : nat) (total_chunks : nat)
    (star_format : string) : Metadata :=
  list_to_map [("experience_id", MInt (exp_id exp));
               ("title", MStr (exp_title exp));
               ("company", MStr (exp_company exp));
               ("chunk_index", MInt (Z.of_nat chunk_idx));
               ("total_chunks", MInt (Z.of_nat total_chunks));
               ("star_format", MStr star_format)].

(** [try: embedding = get_embedding(...) except Exception: continue] *)
Definition try_get_embedding (sv : Services) (text : string) : M (option Embedding) :=
  try_except (let! embedding := get_embedding sv text in ret (Some embedding))
             (λ e, ret None).

(** [for chunk_idx, chunk_text in enumerate(description_chunks)].  The
    metadata is built after the [try], so a [KeyError] of
    [create_star_format_text] ends the run. *)
Fixpoint process_chunks (sv : Services) (exp : experience) (total_chunks : nat)
    (chunks : list (nat * string)) (p : Pending) : M Pending :=
  match chunks with
  | [] => ret p
  | (chunk_idx, chunk_text) :: rest =>
    let chunk_id := chunk_id_of exp chunk_idx in
    let! got := try_get_embedding sv chunk_text in
    match got with
    | None =>
      (* continue *)
      process_chunks sv exp total_chunks rest p
    | Some embedding =>
      let! star_format := lift (create_star_format_text exp) in
      process_chunks sv exp total_chunks rest
        (append_entry p chunk_id embedding chunk_text
                      (metadata_of exp chunk_idx total_chunks star_format) 1)
    end
  end.

(** [for i, exp in enumerate(experiences, 1)] *)
Fixpoint process_experiences (sv : Services) (experiences : list experience)
    (p : Pending) : M Pending :=
  match experiences with
  | [] => ret p
  | exp :: rest =>
    let! chunks := lift (description_chunks sv exp) in
    let! p' := process_chunks sv exp (length chunks) (enumerate chunks) p in
    process_experiences sv rest p'
  end.

Definition collection_name : string := "experience_store".

(** [main], on the experiences that [load_experiences] returned and the
    line typed at the prompt. *)
Definition main (sv : Services) (experiences : list experience) (answer : string)
  : M unit :=
  let! api_key := getenv_GEMINI_API_KEY in
  if negb (from_option PyStr.truthy false api_key) then
    raise (SystemExit 1)
  else
    let! proceed := prepare_collection collection_name answer in
    if proceed : bool then
      let! p := process_experiences sv experiences no_pending in
      batch_add collection_name p
    else
      ret tt.

End Ingest.

(** ** ingest_technical_qa.py *)

Module IngestTechnicalQa.

(** One pair of [technical_qa.json]; every key is read with [.get], [None]
    is a pair without the key. *)
Record qa_pair : Type := MkQaPair {
  qa_id : option Z;
  qa_question : option string;
  qa_answer : option string;
  qa_tags : option (list string);
  qa_category : option string;
}.

Definition chunk_text (sv : Services) (text : string) (chunk_size chunk_overlap : Z)
  : result (list string) :=
  if negb (PyStr.truthy text) || (PyStr.len (PyStr.strip text) =? 0) then
    Ok (if PyStr.truthy text then [text] else [""])
  else
    split_text sv chunk_size chunk_overlap separators text.

Definition get_embedding (sv : Services) (text : string) : M Embedding :=
  try_except
    (call_embed_content sv
       (MkEmbedRequest "models/embedding-001" text (Some "retrieval_document")))
    (λ e,
       try_except
         (call_embed_content sv (MkEmbedRequest "models/embedding-001" text None))
         (λ e2, raise e2)).

(** [if qa.get('tags')] *)
Definition has_tags (qa : qa_pair) : bool :=
  match qa_tags qa with
  | Some (_ :: _) => true
  | _ => false
  end.

(** [if qa.get('category')] *)
Definition has_category (qa : qa_pair) : bool :=
  from_option PyStr.truthy false (qa_category qa).

Definition tags_text (qa : qa_pair) : string :=
  PyStr.join ", " (default [] (qa_tags qa)).

Definition create_text_for_embedding (qa : qa_pair) : string :=
  PyStr.join (nl +:+ nl)
    (["Question: " +:+ default "" (qa_question qa);
      "Answer: " +:+ default "" (qa_answer qa)]
     ++ (if has_tags qa then ["Tags: " +:+ tags_text qa] else [])
     ++ (if has_category qa then ["Category: " +:+ default "" (qa_category qa)] else [])).

(** [qa.get('id', i)] *)
Definition id_of (qa : qa_pair) (i : nat) : Z := default (Z.of_nat i) (qa_id qa).

Definition chunk_text_content (qa : qa_pair) (chunk_idx : nat) (answer_chunk : string)
  : string :=
  "Question: " +:+ default "" (qa_question qa) +:+ nl +:+ nl
  +:+ "Answer (part " +:+ PyStr.of_int (Z.of_nat chunk_idx + 1) +:+ "): " +:+ answer_chunk
  +:+ (if has_tags qa then nl +:+ nl +:+ "Tags: " +:+ tags_text qa else "")
  +:+ (if has_category qa then nl +:+ "Category: " +:+ default "" (qa_category qa) else "").

Definition metadata_of (qa : qa_pair) (i : nat) (chunk_index total_chunks : Z) : Metadata :=
  list_to_map [("qa_id", MInt (id_of qa i));
               ("question", MStr (PyStr.slice_to 200 (default "" (qa_question qa))));
               ("answer", MStr (PyStr.slice_to 500 (default "" (qa_answer qa))));
               ("tags", MStr (tags_text qa));
               ("category", MStr (default "" (qa_category qa)));
               ("chunk_index", MInt chunk_index);
               ("total_chunks", MInt total_chunks)].

(** The id of the entry of chunk [chunk_idx] of a long answer. *)
Definition chunk_id_of (qa : qa_pair) (i : nat) (chunk_idx : nat) : string :=
  "qa_" +:+ PyStr.of_int (id_of qa i) +:+ "_chunk_" +:+ PyStr.of_int (Z.of_nat chunk_idx).

(** The id of the single entry of a shorter answer. *)
Definition single_id_of (qa : qa_pair) (i : nat) : string :=
  "qa_" +:+ PyStr.of_int (id_of qa i).

Definition try_get_embedding (sv : Services) (text : string) : M (option Embedding) :=
  try_except (let! embedding := get_embedding sv text in ret (Some embedding))
             (λ e, ret None).

(** [for chunk_idx, answer_chunk in enumerate(answer_chunks)] *)
Fixpoint process_answer_chunks (sv : Services) (qa : qa_pair) (i : nat)
    (total_chunks : nat) (chunks : list (nat * string)) (p : Pending) : M Pending :=
  match chunks with
  | [] => ret p
  | (chunk_idx, answer_chunk) :: rest =>
    let content := chunk_text_content qa chunk_idx answer_chunk in
    let chunk_id := chunk_id_of qa i chunk_idx in
    let! got := try_get_embedding sv content in
    match got with
    | None => process_answer_chunks sv qa i total_chunks rest p
    | Some embedding =>
      process_answer_chunks sv qa i total_chunks rest
        (append_entry p chunk_id embedding content
           (metadata_of qa i (Z.of_nat chunk_idx) (Z.of_nat total_chunks)) 0)
    end
  end.

(** The body of [for i, qa in enumerate(qa_pairs, 1)]. *)
Definition process_qa (sv : Services) (qa : qa_pair) (i : nat) (p : Pending) : M Pending :=
  let searchable_text := create_text_for_embedding qa in
  let answer := default "" (qa_answer qa) in
  if decide (500 < PyStr.len answer) then
    let! answer_chunks := lift (chunk_text sv answer 300 50) in
    process_answer_chunks sv qa i (length answer_chunks) (enumerate answer_chunks) p
  else
    let chunk_id := single_id_of qa i in
    let! got := try_get_embedding sv searchable_text in
    match got with
    | None => ret p
    | Some embedding =>
      ret (append_entry p chunk_id embedding searchable_text (metadata_of qa i 0 1) 0)
    end.

(** [for i, qa in enumerate(qa_pairs, 1)], from position [i] on. *)
Fixpoint process_qa_pairs (sv : Services) (qa_pairs : list qa_pair) (i : nat)
    (p : Pending) : M Pending :=
  match qa_pairs with
  | [] => ret p
  | qa :: rest =>
    let! p' := process_qa sv qa i p in
    process_qa_pairs sv rest (S i) p'
  end.

Definition collection_name : string := "technical_qa".

Definition main (sv : Services) (qa_pairs : list qa_pair) (answer : string) : M unit :=
  let! api_key := getenv_GEMINI_API_KEY in
  if negb (from_option PyStr.truthy false api_key) then
    raise (SystemExit 1)
  else
    match qa_pairs with
    | [] => ret tt
    | _ :: _ =>
      let! proceed := prepare_collection collection_name answer in
      if proceed : bool then
        let! p := process_qa_pairs sv qa_pairs 1 no_pending in
        batch_add collection_name p
      else
        ret tt
    end.

End IngestTechnicalQa.

(** ** Definitions the statements are written with *)

(** The entries of one list whose key was not met before them: of several
    entries with one key the first is kept, the later ones are left out. *)
Fixpoint first_occurrence_wins {A K} `{EqDecision K} (key : A → K) (l : list A)
  : list A :=
  match l with
  | [] => []
  | x :: rest => x :: filter (λ y, key y ≠ key x) (first_occurrence_wins key rest)
  end.

(** Running [f] on a list from left to right, up to the first exception. *)
Fixpoint map_result {A B} (f : A → result B) (l : list A) : result (list B) :=
  match l with
  | [] => Ok []
  | x :: rest =>
    match f x with
    | Raise e => Raise e
    | Ok y =>
      match map_result f rest with
      | Raise e => Raise e
      | Ok ys => Ok (y :: ys)
      end
    end
  end.

(** The grouping key of a candidate of a query. *)
Definition candidate_key (candidate : string * Metadata) : option MetaValue :=
  RagApi.experience_id_of candidate.2.

(** The grouping key of an entry of a collection. *)
Definition entry_key (kv : string * IndexEntry) : option MetaValue :=
  RagApi.experience_id_of (entry_metadata kv.2).

(** The metadata of an entry as [ingest.py] writes it: an [int] under
    [experience_id], [str]s under [title], [company] and [star_format]. *)
Definition ingested_metadata (metadata : Metadata) : Prop :=
  ∃ i t c s, metadata !! "experience_id" = Some (MInt i)
             ∧ metadata !! "title" = Some (MStr t)
             ∧ metadata !! "company" = Some (MStr c)
             ∧ metadata !! "star_format" = Some (MStr s).

Definition ingested_collection (c : Collection) : Prop :=
  ∀ chunk_id entry, c !! chunk_id = Some entry → ingested_metadata (entry_metadata entry).

(** The record ids with a chunk in the collection. *)
Definition record_keys (c : Collection) : gset (option MetaValue) :=
  list_to_set (entry_key <$> map_to_list c).

(** The record ids among the candidates of a query. *)
Definition candidate_keys (candidates : list (string * Metadata)) : gset (option MetaValue) :=
  list_to_set (candidate_key <$> candidates).

(** The distances from [q] of the chunks of record [key] in the collection. *)
Definition chunk_distances (sv : Services) (c : Collection) (q : Embedding)
    (key : option MetaValue) : list Z :=
  (λ kv, distance sv q (entry_embedding kv.2))
    <$> filter (λ kv, entry_key kv = key) (map_to_list c).

(** [d] is the distance from [q] of the best chunk of record [key]. *)
Definition best_distance (sv : Services) (c : Collection) (q : Embedding)
    (key : option MetaValue) (d : Z) : Prop :=
  d ∈ chunk_distances sv c q key ∧ ∀ d', d' ∈ chunk_distances sv c q key → d ≤ d'.

(** The candidates that [retrieve_experiences] gets for the vector [q]. *)
Definition candidates_of (sv : Services) (c : Collection) (q : Embedding) (top_k : Z)
  : list (string * Metadata) :=
  (λ kv, (kv.1, entry_metadata kv.2))
    <$> take (Z.to_nat (RagApi.n_results top_k c)) (ranking sv c q).

(** A world in which the retrieval endpoint reaches collection [c]: the key
    is set and the store holds [c] under [experience_store]. *)
Definition serving (w : World) (c : Collection) : Prop :=
  (∃ api_key, GEMINI_API_KEY w = Some api_key ∧ PyStr.truthy api_key = true)
  ∧ ∃ client, chroma_db w = Some client ∧ client !! "experience_store" = Some c.

(** The world after more requests were sent to the embedding service. *)
Definition embed_logged (w : World) (requests : list EmbedRequest) : World :=
  MkWorld (GEMINI_API_KEY w) (chroma_db w) (embed_log w ++ requests) (query_log w).

(** The embedding of one text during ingestion, in the words of the spec:
    the requests that are sent after the requests [log], and the vector that
    is used, if any.  The first request names the document intent; when it
    fails, one more request leaves the intent out; when that fails too,
    there is no vector. *)
Definition attempt (sv : Services) (log : list EmbedRequest) (text : string)
  : list EmbedRequest * option Embedding :=
  let with_intent :=
    MkEmbedRequest "models/embedding-001" text (Some "retrieval_document") in
  let without_intent := MkEmbedRequest "models/embedding-001" text None in
  match embed_content sv log with_intent with
  | Vector v => ([with_intent], Some v)
  | Failure _ =>
    match embed_content sv (log ++ [with_intent]) without_intent with
    | Vector v => ([with_intent; without_intent], Some v)
    | Failure _ => ([with_intent; without_intent], None)
    end
  end.

(** One [attempt] for each text of a list, in order, each one after the
    requests of the texts before it, whatever came of those. *)
Fixpoint outcomes (sv : Services) (log : list EmbedRequest) (texts : list string)
  : list (list EmbedRequest * option Embedding) :=
  match texts with
  | [] => []
  | text :: rest =>
    let a := attempt sv log text in
    a :: outcomes sv (log ++ a.1) rest
  end.

(** The requests of a list of outcomes. *)
Definition requests_of (outs : list (list EmbedRequest * option Embedding))
  : list EmbedRequest :=
  concat (fst <$> outs).

(** A chunk of an experience that is to be embedded: the experience, its
    STAR text, the number of its chunks, the index and the text of the
    chunk. *)
Record work_item : Type := MkWorkItem {
  item_exp : Ingest.experience;
  item_star_format : string;
  item_total_chunks : nat;
  item_chunk_idx : nat;
  item_text : string;
}.

(** The chunks of an experience, prepared: its texts and its STAR text. *)
Definition items_of (exp : Ingest.experience) (prepared : list string * string)
  : list work_item :=
  (λ it : nat * string, MkWorkItem exp prepared.2 (length prepared.1) it.1 it.2)
    <$> enumerate prepared.1.

(** What an outcome adds to the pending lists, in the words of the spec:
    when there is a vector, one entry more at the end of each list (the id
    of the chunk, the vector, the text that was embedded, the metadata of
    the chunk) and one chunk more counted; nothing when there is none. *)
Definition store_outcome (p : Pending)
    (io : work_item * (list EmbedRequest * option Embedding)) : Pending :=
  match io.2.2 with
  | Some embedding =>
    MkPending
      (ids p ++ ["exp_" +:+ PyStr.of_int (Ingest.exp_id (item_exp io.1)) +:+ "_chunk_"
                 +:+ PyStr.of_int (Z.of_nat (item_chunk_idx io.1))])
      (embeddings p ++ [embedding])
      (documents p ++ [item_text io.1])
      (metadatas p
       ++ [list_to_map
             [("experience_id", MInt (Ingest.exp_id (item_exp io.1)));
              ("title", MStr (Ingest.exp_title (item_exp io.1)));
              ("company", MStr (Ingest.exp_company (item_exp io.1)));
              ("chunk_index", MInt (Z.of_nat (item_chunk_idx io.1)));
              ("total_chunks", MInt (Z.of_nat (item_total_chunks io.1)));
              ("star_format", MStr (item_star_format io.1))]])
      (chunk_count p + 1)
  | None => p
  end.

(** The same for a chunk of a long answer of the pair at position [i]. *)
Definition store_answer_outcome (qa : IngestTechnicalQa.qa_pair) (i total_chunks : nat)
    (p : Pending) (io : (nat * string) * (list EmbedRequest * option Embedding))
  : Pending :=
  match io with
  | ((chunk_idx, answer_chunk), (_, Some embedding)) =>
    append_entry p (IngestTechnicalQa.chunk_id_of qa i chunk_idx) embedding
      (IngestTechnicalQa.chunk_text_content qa chunk_idx answer_chunk)
      (IngestTechnicalQa.metadata_of qa i (Z.of_nat chunk_idx) (Z.of_nat total_chunks)) 0
  | (_, (_, None)) => p
  end.

(** ** Sample surroundings *)

Module Sample.

(** A splitter that rejects an overlap above the size and cuts into pieces
    of [chunk_size] characters otherwise (separators and overlap unused). *)
Fixpoint pieces (fuel : nat) (size : nat) (text : string) : list string :=
  match fuel with
  | O => []
  | S fuel' =>
    if (String.length text <=? size)%nat then [text]
    else String.substring 0 size text
         :: pieces fuel' size (String.substring size (String.length text - size) text)
  end.

Definition splitter (chunk_size chunk_overlap : Z) (seps : list string) (text : string)
  : result (list string) :=
  if decide (chunk_size < chunk_overlap) then
    Raise (Exception "Got a larger chunk overlap than chunk size")
  else Ok (pieces (String.length text) (Z.to_nat chunk_size `max` 1) text).

(** A distance on vectors of one component. *)
Definition gap (a b : Embedding) : Z :=
  Z.abs (default 0 (head a) - default 0 (head b)).

(** An embedding service that answers every request with the vector [[0]]. *)
Definition up : Services :=
  MkServices (λ _ _, Vector [0]) splitter gap.

(** An embedding service that is down: every request fails. *)
Definition down : Services :=
  MkServices (λ _ _, Failure "503 service unavailable") splitter gap.

(** An embedding service that rejects every request with a task type and
    answers the others. *)
Definition no_task_type : Services :=
  MkServices (λ _ r, match req_task_type r with
                     | Some _ => Failure "400 unknown task type"
                     | None => Vector [0]
                     end) splitter gap.

(** An embedding service with a quota of one request: it answers the first
    request it gets and fails from then on. *)
Definition quota : Services :=
  MkServices (λ log _, match log with
                       | [] => Vector [0]
                       | _ :: _ => Failure "429 quota exceeded"
                       end) splitter gap.

Definition chunk_metadata (i : Z) : Metadata :=
  list_to_map [("experience_id", MInt i); ("title", MStr "Title");
               ("company", MStr "Company"); ("star_format", MStr "STAR")].

(** Record 1 with six chunks at the distances 1..6 from [[0]], record 2 with
    one chunk at the distance 7. *)
Definition lopsided : Collection :=
  list_to_map [("exp_1_chunk_0", MkIndexEntry [1] "a" (chunk_metadata 1));
               ("exp_1_chunk_1", MkIndexEntry [2] "b" (chunk_metadata 1));
               ("exp_1_chunk_2", MkIndexEntry [3] "c" (chunk_metadata 1));
               ("exp_1_chunk_3", MkIndexEntry [4] "d" (chunk_metadata 1));
               ("exp_1_chunk_4", MkIndexEntry [5] "e" (chunk_metadata 1));
               ("exp_1_chunk_5", MkIndexEntry [6] "f" (chunk_metadata 1));
               ("exp_2_chunk_0", MkIndexEntry [7] "g" (chunk_metadata 2))].

(** Two records, the chunks of record 1 at the distances 1 and 2, the chunk
    of record 2 at the distance 3. *)
Definition small : Collection :=
  list_to_map [("exp_1_chunk_0", MkIndexEntry [1] "a" (chunk_metadata 1));
               ("exp_1_chunk_1", MkIndexEntry [2] "b" (chunk_metadata 1));
               ("exp_2_chunk_0", MkIndexEntry [3] "c" (chunk_metadata 2))].

(** Three candidates of a query, nearest first: two chunks of record 1, then
    one of record 2. *)
Definition candidates : list (string * Metadata) :=
  [("exp_1_chunk_0", chunk_metadata 1); ("exp_1_chunk_1", chunk_metadata 1);
   ("exp_2_chunk_0", chunk_metadata 2)].

Definition world_with (c : Collection) : World :=
  MkWorld (Some "key") (Some {["experience_store" := c]}) [] [].

(** An experience without a description. *)
Definition experience1 : Ingest.experience :=
  Ingest.MkExperienceRecord 1 "Title" "Company" None
    (Some "s") (Some "t") (Some "a") (Some "r").

(** An experience with a description of two chunks for [splitter]. *)
Definition experience2 : Ingest.experience :=
  Ingest.MkExperienceRecord 2 "Title" "Company"
    (Some "This description is longer than three hundred characters: aaaaaaaaaaaaaaaaaaaaaaaaaaaaaaaaaaaaaaaaaaaaaaaaaaaaaaaaaaaaaaaaaaaaaaaaaaaaaaaaaaaaaaaaaaaaaaaaaaaaaaaaaaaaaaaaaaaaaaaaaaaaaaaaaaaaaaaaaaaaaaaaaaaaaaaaaaaaaaaaaaaaaaaaaaaaaaaaaaaaaaaaaaaaaaaaaaaaaaaaaaaaaaaaaaaaaaaaaaaaaaaaaaaaaaaaaaaaaaaaaaaaaaaaaaaaaaaaaaaaaaaaaaaaaaaaaaaaaaaaaaaaaaaaaaaaaaaaaaaaaaaa")
    (Some "s") (Some "t") (Some "a") (Some "r").

(** The chunks of an experience with [splitter]. *)
Definition chunks_of (exp : Ingest.experience) : list string :=
  match Ingest.description_chunks (MkServices (λ _ _, Vector [0]) splitter gap) exp with
  | Ok chunks => chunks
  | Raise _ => []
  end.

(** The chunks and the STAR text of an experience that has its keys. *)
Definition prepared_of (exp : Ingest.experience) : list string * string :=
  (chunks_of exp,
   match Ingest.create_star_format_text exp with
   | Ok star_format => star_format
   | Raise _ => ""
   end).


(** A pair with a short answer. *)
Definition short_pair : IngestTechnicalQa.qa_pair :=
  IngestTechnicalQa.MkQaPair (Some 7) (Some "What is a mutex?")
    (Some "A lock that one thread holds at a time.") (Some ["concurrency"]) None.

(** A world with the key set and no store yet. *)
Definition fresh : World := MkWorld (Some "key") None [] [].

End Sample.

(** The world after a query for [n] results was sent to the store. *)
Definition query_logged (w : World) (n : Z) : World :=
  MkWorld (GEMINI_API_KEY w) (chroma_db w) (embed_log w) (query_log w ++ [n]).

(** The summary made of a candidate that is kept. *)
Definition experience_of_candidate (candidate : string * Metadata)
  : result RagApi.Experience :=
  RagApi.make_experience (candidate_key candidate) candidate.2.

(** The ids of the pending entries of a run, when it did not raise. *)
Definition pending_ids (run : World * result Pending) : option (list string) :=
  match run.2 with
  | Ok p => Some (ids p)
  | Raise _ => None
  end.

(** The task types of the requests a run sent to the embedding service. *)
Definition task_types_sent {A} (run : World * result A) : list (option string) :=
  req_task_type <$> embed_log run.1.

(** The world with the store [client]. *)
Definition with_chroma_db (w : World) (client : Client) : World :=
  MkWorld (GEMINI_API_KEY w) (Some client) (embed_log w) (query_log w).

(** The store after the write of batch [batch_idx] of the pending lists. *)
Definition write_batch (name : string) (p : Pending) (client : Client) (batch_idx : nat)
  : Client :=
  let start_idx := (batch_idx * batch_size)%nat in
  let end_idx := ((batch_idx + 1) * batch_size `min` length (ids p))%nat in
  <[name := add (default ∅ (client !! name)) (slice start_idx end_idx (ids p))
                (slice start_idx end_idx (embeddings p))
                (slice start_idx end_idx (documents p))
                (slice start_idx end_idx (metadatas p))]> client.

(** The number of entries of the collection [experience_store]. *)
Definition index_size (w : World) : option nat :=
  client ← chroma_db w; c ← client !! Ingest.collection_name; Some (size c).

(** The line typed at the prompt asks for the collection to be recreated. *)
Definition answered_yes (answer : string) : Prop :=
  PyStr.lower (PyStr.strip answer) = "y".

(** The embedding service answers a request the same way whatever was
    requested before. *)
Definition same_answers_again (sv : Services) : Prop :=
  ∀ log log' r, embed_content sv log r = embed_content sv log' r.

(** A run of [ingest.py] that builds the collection: there is none yet, or
    the prompt is answered with [y]. *)
Definition builds_index (w : World) (answer : string) : Prop :=
  default ∅ (chroma_db w) !! Ingest.collection_name = None ∨ answered_yes answer.

(** What [batch_add] leaves in the store. *)
Definition filled (name : string) (p : Pending) (client : Client) : Client :=
  match ids p with
  | [] => client
  | _ :: _ =>
    foldl (write_batch name p) client
          (seq 0 ((length (ids p) + batch_size - 1) / batch_size)%nat)
  end.

(** The store in which a run that builds the collection starts to write:
    the collection is there and empty. *)
Definition recreated (client : Client) : Client :=
  create_collection (delete_collection client Ingest.collection_name)
                    Ingest.collection_name.

(** The key is set. *)
Definition has_api_key (w : World) : bool :=
  from_option PyStr.truthy false (GEMINI_API_KEY w).

(** The first run of the sample corpus with the service [quota], and the
    second run, answered with [y], in the world the first one left. *)
Definition first_run : World * result unit :=
  Ingest.main Sample.quota [Sample.experience1] "" Sample.fresh.

Definition second_run : World * result unit :=
  Ingest.main Sample.quota [Sample.experience1] "y" first_run.1.

(** ** Definitions of the further properties *)

(** The response of the endpoint for the outcome of the formatting loop. *)
Definition response_of (r : result (list RagApi.Experience))
  : result RagApi.RetrieveResponse :=
  match r with
  | Ok l => Ok (RagApi.MkRetrieveResponse l)
  | Raise e => Raise e
  end.

(** The two requests of [rag_api.get_embedding] for a text. *)
Definition query_request (text : string) : EmbedRequest :=
  MkEmbedRequest "models/embedding-001" text (Some (RagApi.task_type_of text)).

Definition bare_request (text : string) : EmbedRequest :=
  MkEmbedRequest "models/embedding-001" text None.

(** Batch [b] of a list, as [main] slices each of its four lists. *)
Definition batch_of {A} (l : list A) (b : nat) : list A :=
  slice (b * batch_size) (((b + 1) * batch_size) `min` length l) l.

(** [total_batches] for a list. *)
Definition total_batches_of {A} (l : list A) : nat :=
  (length l + batch_size - 1) / batch_size.

(** The four pending lists go together, entry by entry. *)
Definition pending_ok (p : Pending) : Prop :=
  length (embeddings p) = length (ids p)
  ∧ length (documents p) = length (ids p)
  ∧ length (metadatas p) = length (ids p).

(** [p'] is [p] with more entries appended: each of the four lists of [p']
    is the list of [p] with new elements at its end, as many for each list,
    and [counted] (1 or 0) is added to [chunk_count] for each entry. *)
Definition extends (counted : Z) (p p' : Pending) : Prop :=
  ∃ (new_ids : list string) (new_embeddings : list Embedding)
    (new_documents : list string) (new_metadatas : list Metadata),
    ids p' = ids p ++ new_ids
    ∧ embeddings p' = embeddings p ++ new_embeddings
    ∧ documents p' = documents p ++ new_documents
    ∧ metadatas p' = metadatas p ++ new_metadatas
    ∧ length new_embeddings = length new_ids
    ∧ length new_documents = length new_ids
    ∧ length new_metadatas = length new_ids
    ∧ chunk_count p' = chunk_count p + counted * Z.of_nat (length new_ids).

(** The entries that [batch_add] hands to the store, in order. *)
Definition pending_entries (p : Pending) : list (string * IndexEntry) :=
  entries_of (ids p) (embeddings p) (documents p) (metadatas p).

(** The world and the pending lists after the loop of [ingest.py] over
    [Sample.experience1] with the service [Sample.up]. *)
Definition sample_world_after : World :=
  embed_logged Sample.fresh
    [MkEmbedRequest "models/embedding-001"
       (Ingest.full_experience_text Sample.experience1) (Some "retrieval_document")].

Definition sample_star_format : string :=
  "EXPERIENCE 1 - Title:" +:+ nl
  +:+ "Situation: " +:+ dq +:+ "s" +:+ dq +:+ nl +:+ nl
  +:+ "Task: " +:+ dq +:+ "t" +:+ dq +:+ nl +:+ nl
  +:+ "Action: " +:+ dq +:+ "a" +:+ dq +:+ nl +:+ nl
  +:+ "Result: " +:+ dq +:+ "r" +:+ dq +:+ nl.

Definition sample_pending : Pending :=
  MkPending ["exp_1_chunk_0"] [[0]]
    ["Title: Title" +:+ nl +:+ "Company: Company" +:+ nl +:+ "Situation: s" +:+ nl
     +:+ "Task: t" +:+ nl +:+ "Action: a" +:+ nl +:+ "Result: r"]
    [list_to_map [("experience_id", MInt 1); ("title", MStr "Title");
                  ("company", MStr "Company"); ("chunk_index", MInt 0);
                  ("total_chunks", MInt 1); ("star_format", MStr sample_star_format)]]
    1.

(** The same for the loop of [ingest_technical_qa.py] over
    [Sample.short_pair]. *)
Definition sample_qa_world_after : World :=
  embed_logged Sample.fresh
    [MkEmbedRequest "models/embedding-001"
       (IngestTechnicalQa.create_text_for_embedding Sample.short_pair)
       (Some "retrieval_document")].

Definition sample_qa_pending : Pending :=
  MkPending ["qa_7"] [[0]]
    [IngestTechnicalQa.create_text_for_embedding Sample.short_pair]
    [IngestTechnicalQa.metadata_of Sample.short_pair 1 0 1] 0.

(** The header that every embedded text of an experience starts with. *)
Definition header_of (exp : Ingest.experience) : string :=
  "Title: " +:+ Ingest.exp_title exp +:+ nl +:+ "Company: " +:+ Ingest.exp_company exp
  +:+ nl.

(** The character [c] occurs in [s]. *)
Fixpoint occurs (c : ascii) (s : string) : bool :=
  match s with
  | EmptyString => false
  | String c' s' => bool_decide (c = c') || occurs c s'
  end.

(** The underscore that separates the parts of a chunk id. *)
Definition underscore : ascii := ascii_of_nat 95.

(** The metadata is the one that [ingest.py] writes for a chunk of one of
    the experiences [known]. *)
Definition written_for (known : list Ingest.experience) (metadata : Metadata) : Prop :=
  ∃ exp chunk_idx total_chunks star_format,
    exp ∈ known
    ∧ Ingest.create_star_format_text exp = Ok star_format
    ∧ metadata = Ingest.metadata_of exp chunk_idx total_chunks star_format.

(** The summary that the endpoint returns of an experience with the STAR
    text [star_format]. *)
Definition summary_of (exp : Ingest.experience) (star_format : string)
  : RagApi.Experience :=
  RagApi.MkExperience (Ingest.exp_id exp) (Ingest.exp_title exp)
                      (Ingest.exp_company exp) star_format.

(** [e] is the summary of one of the experiences [known]: its [id], [title]
    and [company], and the text that [create_star_format_text] returns for
    it. *)
Definition summarises (known : list Ingest.experience) (e : RagApi.Experience) : Prop :=
  ∃ exp star_format,
    exp ∈ known
    ∧ Ingest.create_star_format_text exp = Ok star_format
    ∧ e = summary_of exp star_format.


(** A request as the ingestion scripts send them: to the embedding model,
    with the document intent or with none. *)
Definition document_request (r : EmbedRequest) : Prop :=
  req_model r = "models/embedding-001"
  ∧ (req_task_type r = Some "retrieval_document" ∨ req_task_type r = None).

(** The collection [name] of the store under [./chroma_db], if any. *)
Definition collection_at (w : World) (name : string) : option Collection :=
  default ∅ (chroma_db w) !! name.

(** What a run of an ingestion script that writes to the collection [name]
    may change: it sends document requests and writes to [name]. *)
Definition ingestion_step (name : string) (w w1 : World) : Prop :=
  GEMINI_API_KEY w1 = GEMINI_API_KEY w
  ∧ query_log w1 = query_log w
  ∧ (∃ requests, embed_log w1 = embed_log w ++ requests
                 ∧ Forall document_request requests)
  ∧ ∀ name', name' ≠ name → collection_at w1 name' = collection_at w name'.

(** A world with the key set and the collection [technical_qa], empty, in
    the store. *)
Definition sample_qa_only : World :=
  MkWorld (Some "key") (Some {["technical_qa" := ∅]}) [] [].

(** The string value [s] under [key] holds the first [limit] characters of
    [text], all of it when it is no longer than that. *)
Definition holds_head (metadata : Metadata) (key : string) (limit : Z) (text : string)
  : Prop :=
  ∃ s rest, metadata !! key = Some (MStr s)
            ∧ text = s +:+ rest
            ∧ PyStr.len s = Z.min limit (PyStr.len text).

(** An id of an entry of the pair [qa] at position [i]: the one of its
    single entry or of one of its chunks. *)
Definition qa_entry_id (qa : IngestTechnicalQa.qa_pair) (i : nat) (chunk_id : string)
  : Prop :=
  chunk_id = IngestTechnicalQa.single_id_of qa i
  ∨ ∃ chunk_idx, chunk_id = IngestTechnicalQa.chunk_id_of qa i chunk_idx.

(** The numbers that [qa.get('id', i)] gives for the pairs of a file, from
    position [i] on. *)
Fixpoint qa_numbers (qa_pairs : list IngestTechnicalQa.qa_pair) (i : nat) : list Z :=
  match qa_pairs with
  | [] => []
  | qa :: rest => IngestTechnicalQa.id_of qa i :: qa_numbers rest (S i)
  end.

(** * Properties *)

(** ** Strings *)

Lemma lstrip_all_space s : PyStr.all_space s = true → PyStr.lstrip s = "".
Proof.
  induction s as [|c s IH]; simpl; [done|].
  intros [Hc Hs]%andb_true_iff. rewrite Hc. auto.
Qed.

Lemma lstrip_empty_all_space s : PyStr.lstrip s = "" → PyStr.all_space s = true.
Proof.
  induction s as [|c s IH]; simpl; [done|].
  destruct (PyStr.isspace c); simpl; [auto|done].
Qed.

Lemma all_space_lstrip s : PyStr.all_space (PyStr.lstrip s) = PyStr.all_space s.
Proof.
  induction s as [|c s IH]; simpl; [done|].
  destruct (PyStr.isspace c) eqn:Hc; simpl; [done|]. by rewrite Hc.
Qed.

Lemma all_space_rev_app s1 s2 :
  PyStr.all_space (String.rev_app s1 s2) = PyStr.all_space s1 && PyStr.all_space s2.
Proof.
  revert s2. induction s1 as [|c s1 IH]; intros s2; simpl; [done|].
  rewrite IH. simpl. destruct (PyStr.isspace c), (PyStr.all_space s1); done.
Qed.

Lemma rev_app_empty s1 s2 : String.rev_app s1 s2 = "" → s1 = "" ∧ s2 = "".
Proof.
  revert s2. induction s1 as [|c s1 IH]; intros s2; simpl; [done|].
  intros [_ [=]]%IH.
Qed.

Lemma strip_empty_iff s : PyStr.strip s = "" ↔ PyStr.all_space s = true.
Proof.
  unfold PyStr.strip, PyStr.rstrip, String.rev. split.
  - intros [H _]%rev_app_empty. apply lstrip_empty_all_space in H.
    by rewrite all_space_rev_app, andb_true_r, all_space_lstrip in H.
  - intros H. by rewrite (lstrip_all_space _ H).
Qed.

Lemma len_zero_iff s : (PyStr.len s =? 0) = true ↔ s = "".
Proof.
  unfold PyStr.len. rewrite Z.eqb_eq. destruct s; simpl; [done|]. split; [lia|done].
Qed.

(** The test that sends a text to the single-chunk branch of the chunkers. *)
Lemma blank_test s :
  negb (PyStr.truthy s) || (PyStr.len (PyStr.strip s) =? 0) = PyStr.all_space s.
Proof.
  destruct s as [|c s]; [done|]. cbn [PyStr.truthy negb orb].
  destruct (PyStr.all_space (String c s)) eqn:Hs.
  - apply len_zero_iff, strip_empty_iff, Hs.
  - apply not_true_is_false. rewrite len_zero_iff, strip_empty_iff. congruence.
Qed.

(** ** The chunker *)

Lemma chunk_description_cases sv text chunk_size chunk_overlap :
  Ingest.chunk_description sv text chunk_size chunk_overlap
  = if PyStr.all_space text then Ok [text]
    else split_text sv chunk_size chunk_overlap separators text.
Proof.
  unfold Ingest.chunk_description. rewrite blank_test.
  destruct (PyStr.all_space text); [|done]. by destruct text.
Qed.

Lemma chunk_text_cases sv text chunk_size chunk_overlap :
  IngestTechnicalQa.chunk_text sv text chunk_size chunk_overlap
  = if PyStr.all_space text then Ok [text]
    else split_text sv chunk_size chunk_overlap separators text.
Proof.
  unfold IngestTechnicalQa.chunk_text. rewrite blank_test.
  destruct (PyStr.all_space text); [|done]. by destruct text.
Qed.

(** C7, as the claim states it, fails: the chunk of a text of three spaces
    is the text of three spaces, not the empty string. *)
Lemma blank_chunk_is_not_emptied :
  PyStr.all_space "   " = true
  ∧ Ingest.chunk_description Sample.up "   " 300 50 = Ok ["   "]
  ∧ IngestTechnicalQa.chunk_text Sample.up "   " 300 50 = Ok ["   "]
  ∧ Ingest.chunk_description Sample.up "   " 300 50 ≠ Ok [""].
Proof. repeat split; [reflexivity..|discriminate]. Qed.

(** C7, amended: for every text that is empty or consists of white space
    only, both chunkers return, without failing, a single chunk that is the
    text itself: the empty string for the empty text, the unchanged white
    space otherwise. *)
Theorem blank_text_single_chunk sv text chunk_size chunk_overlap :
  PyStr.all_space text = true →
  Ingest.chunk_description sv text chunk_size chunk_overlap = Ok [text]
  ∧ IngestTechnicalQa.chunk_text sv text chunk_size chunk_overlap = Ok [text].
Proof.
  intros H. by rewrite chunk_description_cases, chunk_text_cases, H.
Qed.

Lemma blank_text_single_chunk_witness :
  PyStr.all_space "" = true
  ∧ Ingest.chunk_description Sample.down "" 300 50 = Ok [""]
  ∧ IngestTechnicalQa.chunk_text Sample.down "" 300 50 = Ok [""].
Proof.
  split; [reflexivity|].
  apply (blank_text_single_chunk Sample.down "" 300 50). reflexivity.
Defined.

(** C8, as the claim states it, fails: with an overlap of 20 above a size of
    10 the chunker returns the single chunk of an empty text, and of a text
    of white space, although the splitter of this sample rejects the pair of
    sizes for any other text. *)
Lemma overlap_above_size_not_rejected :
  20 ≥ 10
  ∧ Ingest.chunk_description Sample.up "" 10 20 = Ok [""]
  ∧ Ingest.chunk_description Sample.up "  " 10 20 = Ok ["  "]
  ∧ Ingest.chunk_description Sample.up "some text" 10 20
    = Raise (Exception "Got a larger chunk overlap than chunk size").
Proof. repeat split; [lia|reflexivity..]. Qed.

(** C8, amended: the chunker checks neither size itself.  An empty or
    white-space text gives its single chunk for every pair of sizes, an
    overlap at or above the size included; any other text goes with the two
    sizes, unchanged, and the five separators to the text splitter, and the
    call fails when, and as, the splitter fails. *)
Theorem chunker_leaves_sizes_to_splitter sv text chunk_size chunk_overlap :
  Ingest.chunk_description sv text chunk_size chunk_overlap
  = if PyStr.all_space text then Ok [text]
    else split_text sv chunk_size chunk_overlap [nl +:+ nl; nl; ". "; " "; ""] text.
Proof. apply chunk_description_cases. Qed.

(** ** The retrieval endpoint *)

(** Case analysis on what comes of the requests of a [get_embedding]: of the
    first one and, when it fails, of the second. *)
Ltac embed_cases :=
  repeat match goal with
         | |- context [embed_content ?sv ?log ?r] =>
           destruct (embed_content sv log r); cbn
         end.

Lemma retrieve_experiences_serving sv request w c :
  serving w c →
  RagApi.retrieve_experiences sv request w
  = match RagApi.get_embedding sv (RagApi.query request) w with
    | (w1, Ok q) =>
      (query_logged w1 (RagApi.n_results (RagApi.top_k request) c),
       match RagApi.format_results (RagApi.top_k request)
               (candidates_of sv c q (RagApi.top_k request)) with
       | Ok l => Ok (RagApi.MkRetrieveResponse l)
       | Raise e => Raise e
       end)
    | (w1, Raise (SystemExit code)) => (w1, Raise (SystemExit code))
    | (w1, Raise e) =>
      (w1, Raise (HTTPException 500
                    ("Error generating query embedding: " +:+ exn_str e)))
    end.
Proof.
  intros [(api_key & Hkey & Htruthy) (client & Hdb & Hc)].
  unfold RagApi.retrieve_experiences, RagApi.retrieve_experiences_with, bind, getenv_GEMINI_API_KEY, open_chroma_db.
  rewrite Hkey. cbn [from_option]. rewrite Htruthy. cbn [negb]. rewrite Hdb.
  unfold try_except at 1, lift, get_collection. rewrite Hc.
  unfold try_except at 1.
  destruct (RagApi.get_embedding sv (RagApi.query request) w) as [w1 [q|e]].
  - unfold try_except, call_store_query, VectorIndex.query, ret, candidates_of, query_logged.
    by destruct (RagApi.format_results _ _).
  - by destruct e.
Qed.

(** The requests that [rag_api.get_embedding] sends: the first one with the
    task type that the text gives, then, when that one fails, one without. *)
Lemma rag_get_embedding_log sv text w :
  ∃ rest,
    embed_log (RagApi.get_embedding sv text w).1
    = embed_log w
      ++ MkEmbedRequest "models/embedding-001" text (Some (RagApi.task_type_of text))
      :: rest
    ∧ (rest = [] ∨ rest = [MkEmbedRequest "models/embedding-001" text None]).
Proof.
  unfold RagApi.get_embedding, try_except, call_embed_content, raise. cbn.
  embed_cases; rewrite <-?app_assoc; eauto.
Qed.

Lemma rag_get_embedding_frame sv text w :
  let w1 := (RagApi.get_embedding sv text w).1 in
  GEMINI_API_KEY w1 = GEMINI_API_KEY w ∧ chroma_db w1 = chroma_db w
  ∧ query_log w1 = query_log w.
Proof.
  unfold RagApi.get_embedding, try_except, call_embed_content, raise. cbn.
  by embed_cases.
Qed.

Lemma retrieve_embed_log sv request w c :
  serving w c →
  embed_log (RagApi.retrieve_experiences sv request w).1
  = embed_log (RagApi.get_embedding sv (RagApi.query request) w).1.
Proof.
  intros Hs. rewrite (retrieve_experiences_serving _ _ _ _ Hs).
  destruct (RagApi.get_embedding _ _ _) as [w1 [q|e]]; [done|]. by destruct e.
Qed.

(** C1 at the failing input: whatever the embedding service answers and
    whatever [top_k] is, the first embedding request for the query
    "Tell me about a conflict at work" carries the task type
    [retrieval_document], not [retrieval_query]. *)
Theorem query_embedded_as_document sv k :
  head (embed_log
          (RagApi.retrieve_experiences sv
             (RagApi.MkRetrieveRequest "Tell me about a conflict at work" k)
             (Sample.world_with Sample.small)).1)
  = Some (MkEmbedRequest "models/embedding-001" "Tell me about a conflict at work"
            (Some "retrieval_document")).
Proof.
  assert (serving (Sample.world_with Sample.small) Sample.small) as Hs.
  { split; [by exists "key"|]. eexists. split; [done|]. apply lookup_singleton_eq. }
  rewrite (retrieve_embed_log _ _ _ _ Hs). cbn [RagApi.query].
  destruct (rag_get_embedding_log sv "Tell me about a conflict at work"
              (Sample.world_with Sample.small)) as (rest & -> & _).
  done.
Qed.

(** The task type of the first request is the query one exactly for a text
    that holds the letters of "query", in either case, in a row. *)
Lemma task_type_of_query text :
  RagApi.task_type_of text = "retrieval_query"
  ↔ PyStr.contains "query" (PyStr.lower text) = true.
Proof. unfold RagApi.task_type_of. by destruct (PyStr.contains _ _). Qed.

(** C9: in every call of the endpoint that reaches the collection, the one
    query that is sent to the store once the query vector is there asks for
    [min(top_k * 3, collection.count())] results; no other query is sent. *)
Theorem n_results_clamped_to_count sv request w c :
  serving w c →
  query_log (RagApi.retrieve_experiences sv request w).1
  = query_log w
    ++ match (RagApi.get_embedding sv (RagApi.query request) w).2 with
       | Ok _ => [Z.min (RagApi.top_k request * 3) (VectorIndex.count c)]
       | Raise _ => []
       end.
Proof.
  intros Hs. rewrite (retrieve_experiences_serving _ _ _ _ Hs).
  pose proof (rag_get_embedding_frame sv (RagApi.query request) w) as (_ & _ & Hq).
  destruct (RagApi.get_embedding _ _ _) as [w1 [q|e]]; cbn in *.
  - by rewrite Hq.
  - rewrite app_nil_r. by destruct e.
Qed.

Lemma sample_serving c : serving (Sample.world_with c) c.
Proof.
  split; [by exists "key"|]. eexists. split; [done|]. apply lookup_singleton_eq.
Qed.

Lemma n_results_clamped_to_count_witness :
  serving (Sample.world_with Sample.small) Sample.small
  ∧ query_log (RagApi.retrieve_experiences Sample.up
                 (RagApi.MkRetrieveRequest "conflict" 2)
                 (Sample.world_with Sample.small)).1
    = [3].
Proof.
  split; [apply sample_serving|].
  apply (n_results_clamped_to_count Sample.up (RagApi.MkRetrieveRequest "conflict" 2)
           (Sample.world_with Sample.small) Sample.small (sample_serving _)).
Defined.





(** ** First occurrence wins *)

Section first_occurrence.
Context {A K : Type} `{EqDecision K} (key : A → K).

Implicit Types l : list A.

Lemma first_occurrence_wins_sublist l : first_occurrence_wins key l `sublist_of` l.
Proof.
  induction l as [|x l IH]; simpl; [done|].
  apply sublist_skip. etrans; [apply sublist_filter|done].
Qed.

Lemma first_occurrence_wins_keys l k :
  k ∈ key <$> first_occurrence_wins key l ↔ k ∈ key <$> l.
Proof.
  induction l as [|x l IH]; simpl; [done|].
  rewrite !elem_of_cons, <-IH, !list_elem_of_fmap.
  setoid_rewrite list_elem_of_filter.
  destruct (decide (k = key x)) as [->|Hk]; [tauto|]. split.
  - intros [?|(y & -> & _ & Hy)]; [done|]. right. eauto.
  - intros [?|(y & -> & Hy)]; [done|]. right. exists y. split_and!; [done| |done].
    congruence.
Qed.

Lemma first_occurrence_wins_NoDup l : NoDup (key <$> first_occurrence_wins key l).
Proof.
  induction l as [|x l IH]; simpl; [constructor|].
  constructor.
  - rewrite list_elem_of_fmap. intros (y & Hy & [? _]%list_elem_of_filter). done.
  - apply (sublist_NoDup _ _ IH), fmap_sublist, sublist_filter.
Qed.

(** A kept entry is the first of the list with its key. *)
Lemma first_occurrence_wins_first l :
  Forall (λ x, ∃ before after, l = before ++ x :: after ∧ key x ∉ key <$> before)
         (first_occurrence_wins key l).
Proof.
  induction l as [|x l IH]; simpl; [constructor|].
  constructor.
  - exists [], l. split; [done|]. simpl. apply not_elem_of_nil.
  - apply Forall_forall. intros y [Hne Hy]%list_elem_of_filter.
    rewrite Forall_forall in IH. destruct (IH y Hy) as (before & after & -> & Hb).
    exists (x :: before), after. split; [done|].
    rewrite fmap_cons, not_elem_of_cons. done.
Qed.

Lemma first_occurrence_wins_filter_seen (seen : K → Prop) `{!∀ k, Decision (seen k)}
    x l :
  seen (key x) →
  filter (λ y, ¬ seen (key y)) (first_occurrence_wins key (x :: l))
  = filter (λ y, ¬ seen (key y)) (first_occurrence_wins key l).
Proof.
  intros Hx. simpl. rewrite filter_cons_False by tauto.
  rewrite list_filter_filter. apply list_filter_iff. intros y. split; [tauto|].
  intros Hy. split; [done|]. intros Heq. by rewrite Heq in Hy.
Qed.

End first_occurrence.

Lemma first_occurrence_wins_fmap {A B K} `{EqDecision K} (key : B → K) (f : A → B)
    (l : list A) :
  first_occurrence_wins key (f <$> l) = f <$> first_occurrence_wins (key ∘ f) l.
Proof.
  induction l as [|x l IH]; [done|].
  rewrite fmap_cons. cbn [first_occurrence_wins]. rewrite fmap_cons. f_equal.
  rewrite IH. generalize (first_occurrence_wins (key ∘ f) l). intros k.
  induction k as [|y k IHk]; [done|].
  rewrite fmap_cons, !filter_cons. cbn [compose].
  destruct (decide (key (f y) ≠ key (f x))); by rewrite ?fmap_cons, IHk.
Qed.

Lemma map_result_Forall2 {A B} (f : A → result B) l l' :
  map_result f l = Ok l' → Forall2 (λ x y, f x = Ok y) l l'.
Proof.
  revert l'. induction l as [|x l IH]; intros l'; simpl.
  - intros [= <-]. constructor.
  - destruct (f x) as [y|] eqn:Hx; [|done].
    destruct (map_result f l) as [ys|]; [|done]. intros [= <-]. by constructor; auto.
Qed.

Lemma map_result_total {A B} (f : A → result B) l :
  Forall (λ x, ∃ y, f x = Ok y) l → ∃ l', map_result f l = Ok l'.
Proof.
  induction 1 as [|x l [y Hy] _ [l' IH]]; simpl; [eauto|].
  rewrite Hy, IH. eauto.
Qed.

(** ** The deduplication loop *)

Lemma dedup_loop_spec (top_k : Z) (rest : list (string * Metadata))
    (emitted : list RagApi.Experience) (seen : gset (option MetaValue)) :
  RagApi.dedup_loop top_k rest emitted seen
  = match map_result experience_of_candidate
            (take (Z.to_nat (top_k - Z.of_nat (length emitted)))
                  (filter (λ c, candidate_key c ∉ seen)
                          (first_occurrence_wins candidate_key rest))) with
    | Ok l => Ok (emitted ++ l)
    | Raise e => Raise e
    end.
Proof.
  revert emitted seen. induction rest as [|[chunk_id metadata] rest IH]; intros emitted seen.
  - cbn [RagApi.dedup_loop first_occurrence_wins]. rewrite filter_nil, take_nil.
    simpl. by rewrite app_nil_r.
  - cbn [RagApi.dedup_loop].
    change (RagApi.experience_id_of metadata) with (candidate_key (chunk_id, metadata)).
    set (c := (chunk_id, metadata)).
    destruct (decide (candidate_key c ∈ seen)) as [Hseen|Hnew].
    + rewrite IH.
      pose proof (first_occurrence_wins_filter_seen candidate_key (λ k, k ∈ seen)
                    c rest Hseen) as Hf.
      cbn beta in Hf. by rewrite Hf.
    + cbn [first_occurrence_wins]. rewrite filter_cons_True by done.
      destruct (decide (top_k ≤ Z.of_nat (length emitted))) as [Hfull|Hroom].
      * replace (Z.to_nat (top_k - Z.of_nat (length emitted))) with 0%nat by lia.
        simpl. by rewrite app_nil_r.
      * replace (Z.to_nat (top_k - Z.of_nat (length emitted)))
          with (S (Z.to_nat (top_k - Z.of_nat (length (emitted ++ [RagApi.MkExperience 0 "" "" ""])))))
          by (rewrite length_app; simpl; lia).
        cbn [take map_result]. unfold experience_of_candidate at 1.
        change (c.2) with metadata.
        destruct (RagApi.make_experience (candidate_key c) metadata) as [e|err]; [|done].
        rewrite IH, list_filter_filter.
        rewrite (list_filter_iff
                   (λ y, (candidate_key y ∉ seen) ∧ (candidate_key y ≠ candidate_key c))
                   (λ y, candidate_key y ∉ (({[candidate_key c]} ∪ seen) : gset _)))
          by (intros y; rewrite not_elem_of_union, not_elem_of_singleton; tauto).
        replace (length (emitted ++ [e])) with (length (emitted ++ [RagApi.MkExperience 0 "" "" ""]))
          by (by rewrite !length_app).
        destruct (map_result _ _) as [l|]; [|done]. by rewrite <-app_assoc.
Qed.

Lemma filter_keeps_all {A} (P : A → Prop) `{!∀ x, Decision (P x)} (l : list A) :
  (∀ x, P x) → filter P l = l.
Proof.
  intros HP. induction l as [|x l IH]; [done|].
  by rewrite filter_cons_True, IH.
Qed.

Lemma format_results_spec top_k candidates :
  RagApi.format_results top_k candidates
  = map_result experience_of_candidate
      (take (Z.to_nat top_k) (first_occurrence_wins candidate_key candidates)).
Proof.
  unfold RagApi.format_results. destruct candidates as [|c candidates].
  - by destruct (Z.to_nat top_k).
  - rewrite dedup_loop_spec. simpl length. rewrite Z.sub_0_r.
    rewrite filter_keeps_all by (intros x; apply not_elem_of_empty).
    by destruct (map_result _ _).
Qed.

Lemma make_experience_key k metadata e :
  RagApi.make_experience k metadata = Ok e → k = Some (MInt (RagApi.id e)).
Proof.
  unfold RagApi.make_experience. intros H.
  repeat (case_match; simplify_eq/=); done.
Qed.

Lemma make_experience_ingested metadata :
  ingested_metadata metadata →
  ∃ e, RagApi.make_experience (RagApi.experience_id_of metadata) metadata = Ok e.
Proof.
  intros (i & t & c & s & Hi & Ht & Hc & Hs).
  unfold RagApi.make_experience, RagApi.experience_id_of. rewrite Hi, Ht, Hc, Hs. eauto.
Qed.

(** The ids of the summaries are the keys of the candidates they come from. *)
Lemma experience_ids_keys candidates l :
  map_result experience_of_candidate candidates = Ok l →
  candidate_key <$> candidates = (λ e, Some (MInt (RagApi.id e))) <$> l.
Proof.
  intros H%map_result_Forall2. induction H as [|c e cs l Hc _ IH]; [done|].
  rewrite !fmap_cons, IH. f_equal. by apply make_experience_key in Hc.
Qed.

(** C3: deduplication is first-occurrence-wins.  For the candidates in the
    order the store returns them, nearest first, and [top_k >= 0], the
    endpoint makes its entries of the first [top_k] candidates of
    [first_occurrence_wins]: each of them is the first candidate with its
    [experience_id], a later candidate with an id met before makes no entry
    and takes no place among the [top_k]; the list that is returned holds
    every experience id at most once and has at most [top_k] entries. *)
Theorem dedup_first_occurrence_wins (top_k : Z) (candidates : list (string * Metadata)) :
  0 ≤ top_k →
  let kept := take (Z.to_nat top_k) (first_occurrence_wins candidate_key candidates) in
  RagApi.format_results top_k candidates = map_result experience_of_candidate kept
  ∧ Forall (λ c, ∃ before after,
                candidates = before ++ c :: after
                ∧ candidate_key c ∉ candidate_key <$> before) kept
  ∧ NoDup (candidate_key <$> kept)
  ∧ match RagApi.format_results top_k candidates with
    | Ok l =>
      NoDup (RagApi.id <$> l) ∧ Z.of_nat (length l) ≤ top_k ∧ length l = length kept
    | Raise _ => True
    end.
Proof.
  intros Hk kept.
  assert (NoDup (candidate_key <$> kept)) as Hnd.
  { apply (sublist_NoDup _ _ (first_occurrence_wins_NoDup candidate_key candidates)).
    apply fmap_sublist, sublist_take. }
  split_and!; [apply format_results_spec| |done|].
  - eapply Forall_take, first_occurrence_wins_first.
  - rewrite format_results_spec. fold kept.
    destruct (map_result experience_of_candidate kept) as [l|] eqn:Hl; [|done].
    pose proof (experience_ids_keys _ _ Hl) as Hkeys.
    pose proof (Forall2_length _ _ _ (map_result_Forall2 _ _ _ Hl)) as Hlen.
    split_and!; [|rewrite <-Hlen; unfold kept; rewrite length_take; lia|done].
    rewrite Hkeys in Hnd.
    change (λ e, Some (MInt (RagApi.id e))) with ((Some ∘ MInt) ∘ RagApi.id) in Hnd.
    rewrite list_fmap_compose in Hnd. by apply NoDup_fmap_1 in Hnd.
Qed.

Lemma dedup_first_occurrence_wins_witness :
  0 ≤ 2
  ∧ RagApi.format_results 2 Sample.candidates
    = Ok [RagApi.MkExperience 1 "Title" "Company" "STAR";
          RagApi.MkExperience 2 "Title" "Company" "STAR"].
Proof.
  split; [lia|].
  destruct (dedup_first_occurrence_wins 2 Sample.candidates) as (H & _); [lia|].
  rewrite H. reflexivity.
Defined.

(** ** The ranking of the store *)

Global Instance nearer_transitive d : Transitive (nearer d).
Proof. unfold nearer. intros a b c. lia. Qed.

Global Instance nearer_total d : Total (nearer d).
Proof. unfold nearer. intros a b. lia. Qed.

Lemma ranking_sorted sv c q :
  StronglySorted (nearer (distance sv q)) (ranking sv c q).
Proof. apply StronglySorted_merge_sort; apply _. Qed.

Lemma ranking_entries sv c q kv : kv ∈ ranking sv c q ↔ c !! kv.1 = Some kv.2.
Proof.
  unfold ranking. rewrite merge_sort_Permutation. destruct kv as [k v].
  apply elem_of_map_to_list.
Qed.

Lemma StronglySorted_sublist {A} (R : relation A) (l1 l2 : list A) :
  l1 `sublist_of` l2 → StronglySorted R l2 → StronglySorted R l1.
Proof.
  induction 1 as [|x l1 l2 Hsub IH|x l1 l2 Hsub IH]; [done|..].
  - rewrite !StronglySorted_cons. intros [Hx Hs]. split; [|auto].
    rewrite Forall_forall in *. eauto using elem_of_sublist.
  - rewrite StronglySorted_cons. intros [_ Hs]. auto.
Qed.

Lemma StronglySorted_lookup_lt {A} (R : relation A) (l : list A) i j x y :
  StronglySorted R l → (i < j)%nat → l !! i = Some x → l !! j = Some y → R x y.
Proof.
  intros Hs. revert i j. induction Hs as [|a l Hs IH Ha]; intros i j Hij Hi Hj; [done|].
  destruct j as [|j]; [lia|]. destruct i as [|i]; simplify_eq/=.
  - rewrite Forall_forall in Ha. eauto using list_elem_of_lookup_2.
  - apply (IH i j); [lia|done..].
Qed.

(** The first of the nearest [n] entries with its key is the nearest chunk
    of its record in the whole collection. *)
Lemma first_of_nearest_is_best sv c q n w :
  w ∈ first_occurrence_wins entry_key (take n (ranking sv c q)) →
  best_distance sv c q (entry_key w) (distance sv q (entry_embedding w.2)).
Proof.
  intros Hw.
  pose proof (first_occurrence_wins_first entry_key (take n (ranking sv c q))) as Hfirst.
  rewrite Forall_forall in Hfirst.
  destruct (Hfirst w Hw) as (before & after & Htake & Hbefore).
  pose proof (ranking_sorted sv c q) as Hsorted.
  rewrite <-(take_drop n (ranking sv c q)), Htake, <-app_assoc in Hsorted.
  apply StronglySorted_app in Hsorted as (_ & _ & Hsorted).
  cbn [app] in Hsorted. apply StronglySorted_cons in Hsorted as [Hnear _].
  assert (∀ e, e ∈ map_to_list c → entry_key e = entry_key w →
               nearer (distance sv q) w e) as Hall.
  { intros e He Hkey.
    assert (e ∈ ranking sv c q) as Hin.
    { unfold ranking. by rewrite merge_sort_Permutation. }
    rewrite <-(take_drop n (ranking sv c q)), Htake, <-app_assoc in Hin.
    apply elem_of_app in Hin as [Hin|Hin].
    - exfalso. apply Hbefore. rewrite <-Hkey. by apply list_elem_of_fmap_2.
    - cbn [app] in Hin. apply elem_of_cons in Hin as [->|Hin]; [unfold nearer; lia|].
      rewrite Forall_forall in Hnear. auto. }
  split.
  - unfold chunk_distances.
    apply (list_elem_of_fmap_2 (λ kv, distance sv q (entry_embedding kv.2))).
    apply list_elem_of_filter. split; [done|].
    assert (w ∈ ranking sv c q) as Hin.
    { eapply elem_of_sublist; [exact Hw|].
      etrans; [apply first_occurrence_wins_sublist|apply sublist_take]. }
    unfold ranking in Hin. by rewrite merge_sort_Permutation in Hin.
  - intros d' (e & -> & [Hkey He]%list_elem_of_filter)%list_elem_of_fmap.
    by apply Hall.
Qed.

Lemma first_occurrence_wins_length {A K} `{Countable K} (key : A → K) (l : list A) :
  length (first_occurrence_wins key l) = size (list_to_set (key <$> l) : gset K).
Proof.
  rewrite <-(length_fmap key), <-(size_list_to_set (C:=gset K))
    by apply first_occurrence_wins_NoDup.
  f_equal. apply set_eq. intros k.
  by rewrite !elem_of_list_to_set, first_occurrence_wins_keys.
Qed.

(** When the collection has at most [3 * top_k] chunks, all of them are
    fetched, and the records among the candidates are the records of the
    collection. *)
Lemma all_fetched_keys sv c q top_k :
  VectorIndex.count c ≤ top_k * 3 →
  candidate_keys (candidates_of sv c q top_k) = record_keys c.
Proof.
  intros Hcount. unfold candidate_keys, record_keys, candidates_of, RagApi.n_results.
  rewrite Z.min_r by done. unfold VectorIndex.count. rewrite Nat2Z.id.
  rewrite take_ge, <-list_fmap_compose.
  - apply set_eq. intros k. rewrite !elem_of_list_to_set, !list_elem_of_fmap.
    unfold ranking. by setoid_rewrite merge_sort_Permutation.
  - unfold ranking. by rewrite merge_sort_Permutation, length_map_to_list.
Qed.

(** C2, as the claim states it, fails: the collection [Sample.lopsided]
    holds chunks of two records, and a query with [top_k = 2] returns one
    record only: the six chunks that are fetched all belong to record 1. *)
Lemma fewer_records_than_top_k :
  size (record_keys Sample.lopsided) = 2%nat
  ∧ (RagApi.retrieve_experiences Sample.up (RagApi.MkRetrieveRequest "conflict" 2)
       (Sample.world_with Sample.lopsided)).2
    = Ok (RagApi.MkRetrieveResponse [RagApi.MkExperience 1 "Title" "Company" "STAR"]).
Proof.
  split; by vm_compute.
Qed.

Lemma candidates_of_keys sv c q top_k :
  candidates_of sv c q top_k
  = (λ kv, (kv.1, entry_metadata kv.2))
      <$> take (Z.to_nat (RagApi.n_results top_k c)) (ranking sv c q).
Proof. done. Qed.

(** C2, amended: in a call that reaches a collection written by the
    ingestion, with the query vector [q] and [top_k = k], the endpoint
    returns distinct record ids, as many as [k] or, if that is less, the
    number of distinct records among the [min(3k, count())] nearest chunks
    it fetched; so exactly [k] when the fetched chunks belong to at least
    [k] records, and fewer otherwise, without a second query.  The ids are
    in the order of the distance of each record's best chunk, nearest
    first. *)
Theorem retrieve_distinct_records_of_fetched sv request w c q :
  serving w c →
  ingested_collection c →
  (RagApi.get_embedding sv (RagApi.query request) w).2 = Ok q →
  ∃ l,
    (RagApi.retrieve_experiences sv request w).2 = Ok (RagApi.MkRetrieveResponse l)
    ∧ NoDup (RagApi.id <$> l)
    ∧ length l
      = (Z.to_nat (RagApi.top_k request)
         `min` size (candidate_keys (candidates_of sv c q (RagApi.top_k request))))%nat
    ∧ ((Z.to_nat (RagApi.top_k request)
        ≤ size (candidate_keys (candidates_of sv c q (RagApi.top_k request))))%nat →
       length l = Z.to_nat (RagApi.top_k request))
    ∧ ∀ i j ei ej,
        (i < j)%nat → l !! i = Some ei → l !! j = Some ej →
        ∃ di dj,
          best_distance sv c q (Some (MInt (RagApi.id ei))) di
          ∧ best_distance sv c q (Some (MInt (RagApi.id ej))) dj
          ∧ di ≤ dj.
Proof.
  intros Hs Hing Hq. rewrite (retrieve_experiences_serving _ _ _ _ Hs).
  destruct (RagApi.get_embedding _ _ _) as [w1 r]. cbn in Hq. subst r. cbn [snd].
  rewrite format_results_spec.
  unfold candidate_keys. rewrite candidates_of_keys.
  set (g := λ kv : string * IndexEntry, (kv.1, entry_metadata kv.2)).
  set (n := Z.to_nat (RagApi.n_results (RagApi.top_k request) c)).
  set (k := Z.to_nat (RagApi.top_k request)).
  rewrite first_occurrence_wins_fmap, <-fmap_take, <-list_fmap_compose.
  change (candidate_key ∘ g) with entry_key.
  set (W := first_occurrence_wins entry_key (take n (ranking sv c q))).
  assert (∀ x, x ∈ take k W → x ∈ W) as HinW.
  { intros x Hx. eapply elem_of_sublist; [exact Hx|apply sublist_take]. }
  assert (∀ x, x ∈ W → c !! x.1 = Some x.2) as HWc.
  { intros x Hx. apply (ranking_entries sv c q).
    eapply elem_of_sublist; [exact Hx|].
    etrans; [apply first_occurrence_wins_sublist|apply sublist_take]. }
  destruct (map_result_total experience_of_candidate (g <$> take k W)) as [l Hl].
  { apply Forall_fmap, Forall_forall. intros x Hx. cbn.
    apply (make_experience_ingested (entry_metadata x.2)), (Hing x.1), HWc, HinW, Hx. }
  exists l. rewrite Hl.
  pose proof (experience_ids_keys _ _ Hl) as Hkeys.
  rewrite <-list_fmap_compose in Hkeys. change (candidate_key ∘ g) with entry_key in Hkeys.
  pose proof (map_result_Forall2 _ _ _ Hl) as Hall.
  apply Forall2_fmap_l in Hall.
  assert (length l = (k `min` size (list_to_set (entry_key <$> take n (ranking sv c q))
                                     : gset (option MetaValue)))%nat) as Hlen.
  { rewrite <-(Forall2_length _ _ _ Hall), length_take. unfold W.
    by rewrite first_occurrence_wins_length. }
  split_and!; [done| |done|lia|].
  - assert (NoDup (entry_key <$> take k W)) as Hnd.
    { apply (sublist_NoDup _ _ (first_occurrence_wins_NoDup entry_key
                                   (take n (ranking sv c q)))).
      apply fmap_sublist, sublist_take. }
    rewrite Hkeys in Hnd.
    change (λ e, Some (MInt (RagApi.id e))) with ((Some ∘ MInt) ∘ RagApi.id) in Hnd.
    rewrite list_fmap_compose in Hnd. by apply NoDup_fmap_1 in Hnd.
  - intros i j ei ej Hij Hi Hj.
    destruct (Forall2_lookup_r _ _ _ _ _ Hall Hi) as (wi & Hwi & Hei).
    destruct (Forall2_lookup_r _ _ _ _ _ Hall Hj) as (wj & Hwj & Hej).
    apply make_experience_key in Hei, Hej. cbn in Hei, Hej.
    change (RagApi.experience_id_of (entry_metadata wi.2)) with (entry_key wi) in Hei.
    change (RagApi.experience_id_of (entry_metadata wj.2)) with (entry_key wj) in Hej.
    exists (distance sv q (entry_embedding wi.2)), (distance sv q (entry_embedding wj.2)).
    rewrite <-Hei, <-Hej. split_and!.
    + apply (first_of_nearest_is_best sv c q n), HinW. eauto using list_elem_of_lookup_2.
    + apply (first_of_nearest_is_best sv c q n), HinW. eauto using list_elem_of_lookup_2.
    + assert (StronglySorted (nearer (distance sv q)) (take k W)) as Hsorted.
      { apply (StronglySorted_sublist _ _ (ranking sv c q)); [|apply ranking_sorted].
        etrans; [apply sublist_take|].
        etrans; [apply first_occurrence_wins_sublist|apply sublist_take]. }
      apply (StronglySorted_lookup_lt _ _ i j wi wj Hsorted Hij Hwi Hwj).
Qed.

Lemma sample_small_ingested : ingested_collection Sample.small.
Proof.
  intros k e H. unfold Sample.small in H. apply elem_of_list_to_map_2 in H.
  repeat (apply elem_of_cons in H as [[= -> ->]|H]);
    [by exists 1, "Title", "Company", "STAR"..|by exists 2, "Title", "Company", "STAR"|].
  by apply elem_of_nil in H.
Qed.

Lemma retrieve_distinct_records_of_fetched_witness :
  serving (Sample.world_with Sample.small) Sample.small
  ∧ ingested_collection Sample.small
  ∧ (RagApi.get_embedding Sample.up "conflict" (Sample.world_with Sample.small)).2 = Ok [0]
  ∧ ∃ l, (RagApi.retrieve_experiences Sample.up (RagApi.MkRetrieveRequest "conflict" 2)
            (Sample.world_with Sample.small)).2 = Ok (RagApi.MkRetrieveResponse l)
         ∧ NoDup (RagApi.id <$> l) ∧ length l = 2%nat.
Proof.
  split; [apply sample_serving|]. split; [apply sample_small_ingested|].
  split; [reflexivity|].
  destruct (retrieve_distinct_records_of_fetched Sample.up
              (RagApi.MkRetrieveRequest "conflict" 2)
              (Sample.world_with Sample.small) Sample.small [0])
    as (l & Hl & Hnd & Hlen & _ & _);
    [apply sample_serving|apply sample_small_ingested|reflexivity|].
  exists l. split; [exact Hl|]. split; [exact Hnd|]. rewrite Hlen. by vm_compute.
Defined.

(** The metadata that [ingest.py] writes has the keys and the types that the
    endpoint reads. *)
Lemma ingest_metadata_ingested exp chunk_idx total_chunks star_format :
  ingested_metadata (Ingest.metadata_of exp chunk_idx total_chunks star_format).
Proof.
  exists (Ingest.exp_id exp), (Ingest.exp_title exp), (Ingest.exp_company exp),
    star_format.
  by split_and!.
Qed.

(** ** Embedding during ingestion *)

Lemma embed_log_logged w requests : embed_log (embed_logged w requests) = embed_log w ++ requests.
Proof. done. Qed.

Lemma embed_logged_nil w : embed_logged w [] = w.
Proof. destruct w. unfold embed_logged. cbn. by rewrite app_nil_r. Qed.

Lemma embed_logged_app w r1 r2 :
  embed_logged (embed_logged w r1) r2 = embed_logged w (r1 ++ r2).
Proof. unfold embed_logged. cbn. by rewrite app_assoc. Qed.

(** [ingest.get_embedding] makes the requests of [attempt] and returns its
    vector, or raises when there is none. *)
Lemma ingest_get_embedding_attempt sv text w :
  (Ingest.get_embedding sv text w).1
  = embed_logged w (attempt sv (embed_log w) text).1
  ∧ match (Ingest.get_embedding sv text w).2 with
    | Ok v => (attempt sv (embed_log w) text).2 = Some v
    | Raise _ => (attempt sv (embed_log w) text).2 = None
    end.
Proof.
  unfold Ingest.get_embedding, attempt, try_except, call_embed_content, raise,
    embed_logged. cbn.
  embed_cases; by rewrite <-?app_assoc.
Qed.

Lemma ingest_try_get_embedding sv text w :
  Ingest.try_get_embedding sv text w
  = (embed_logged w (attempt sv (embed_log w) text).1,
     Ok (attempt sv (embed_log w) text).2).
Proof.
  unfold Ingest.try_get_embedding, Ingest.get_embedding, attempt, try_except, bind,
    call_embed_content, raise, ret, embed_logged. cbn.
  embed_cases; by rewrite <-?app_assoc.
Qed.

Lemma qa_try_get_embedding sv text w :
  IngestTechnicalQa.try_get_embedding sv text w
  = (embed_logged w (attempt sv (embed_log w) text).1,
     Ok (attempt sv (embed_log w) text).2).
Proof.
  unfold IngestTechnicalQa.try_get_embedding, IngestTechnicalQa.get_embedding, attempt,
    try_except, bind, call_embed_content, raise, ret, embed_logged. cbn.
  embed_cases; by rewrite <-?app_assoc.
Qed.

Lemma outcomes_length sv log texts : length (outcomes sv log texts) = length texts.
Proof. revert log. induction texts as [|t texts IH]; intros log; simpl; auto. Qed.

Lemma outcomes_app sv log texts1 texts2 :
  outcomes sv log (texts1 ++ texts2)
  = outcomes sv log texts1
    ++ outcomes sv (log ++ requests_of (outcomes sv log texts1)) texts2.
Proof.
  revert log. induction texts1 as [|t texts1 IH]; intros log.
  - unfold requests_of. simpl. by rewrite app_nil_r.
  - cbn [app outcomes]. rewrite IH. unfold requests_of.
    cbn [fmap list_fmap concat app]. by rewrite app_assoc.
Qed.

Lemma attempt_document sv log text : Forall document_request (attempt sv log text).1.
Proof.
  unfold attempt.
  repeat case_match; cbn [fst];
    repeat (apply Forall_cons_2; [split; cbn; [done|auto]|]); apply Forall_nil_2.
Qed.

Lemma outcomes_document sv log texts :
  Forall document_request (requests_of (outcomes sv log texts)).
Proof.
  revert log. induction texts as [|text texts IH]; intros log; [constructor|].
  cbn [outcomes]. unfold requests_of. cbn [fmap list_fmap concat].
  apply Forall_app. split; [apply attempt_document|apply IH].
Qed.

(** The loop over the chunks of an experience whose STAR text can be
    built: one attempt for each chunk, one entry for each vector. *)
Lemma process_chunks_outcomes sv exp star_format total chunks p w :
  Ingest.create_star_format_text exp = Ok star_format →
  Ingest.process_chunks sv exp total chunks p w
  = (embed_logged w (requests_of (outcomes sv (embed_log w) (snd <$> chunks))),
     Ok (foldl store_outcome p
           (zip ((λ it : nat * string, MkWorkItem exp star_format total it.1 it.2)
                   <$> chunks)
                (outcomes sv (embed_log w) (snd <$> chunks))))).
Proof.
  intros Hstar. revert p w.
  induction chunks as [|[chunk_idx text] chunks IH]; intros p w.
  - cbn. by rewrite embed_logged_nil.
  - cbn [Ingest.process_chunks]. unfold bind at 1. rewrite ingest_try_get_embedding.
    cbn [fmap list_fmap outcomes snd fst zip zip_with foldl].
    unfold requests_of. cbn [fmap list_fmap concat fst].
    rewrite <-embed_logged_app.
    destruct (attempt sv (embed_log w) text) as [requests [v|]]; cbn [fst snd].
    + unfold bind at 1, lift. rewrite Hstar. by rewrite IH, embed_log_logged.
    + by rewrite IH, embed_log_logged.
Qed.

(** The loop over the chunks of an experience that lacks a key of the STAR
    text: the chunks are attempted until one gets a vector, and the
    [KeyError] of its metadata ends the run; when none gets a vector, the
    pending lists are as they were. *)
Lemma process_chunks_key_error sv exp e total chunks p w :
  Ingest.create_star_format_text exp = Raise e →
  ∃ requests r,
    Ingest.process_chunks sv exp total chunks p w = (embed_logged w requests, r)
    ∧ Forall document_request requests
    ∧ (r = Ok p ∨ r = Raise e).
Proof.
  intros Hstar. revert w.
  induction chunks as [|[chunk_idx text] chunks IH]; intros w.
  - exists [], (Ok p). cbn. rewrite embed_logged_nil. split_and!; [done|constructor|auto].
  - cbn [Ingest.process_chunks]. unfold bind at 1. rewrite ingest_try_get_embedding.
    pose proof (attempt_document sv (embed_log w) text) as Hdoc.
    destruct (attempt sv (embed_log w) text) as [requests [v|]]; cbn [fst snd] in *.
    + exists requests, (Raise e). unfold bind, lift. rewrite Hstar. auto.
    + destruct (IH (embed_logged w requests)) as (rest & r & Hrun & Hrest & Hr).
      exists (requests ++ rest), r. rewrite <-embed_logged_app.
      split_and!; [done|by apply Forall_app|done].
Qed.

Lemma items_of_texts exp prepared :
  item_text <$> items_of exp prepared = snd <$> enumerate prepared.1.
Proof. unfold items_of. by rewrite <-list_fmap_compose. Qed.

(** C6: embedding failures during ingestion.  For the experiences whose
    description is chunked and whose STAR text can be built (the keys
    [situation], [task], [action] and [result] are there), the run makes
    one [attempt] for every chunk of every experience, in order: a request
    with the document intent, then, when that one fails, one request without
    intent, whose vector is used when it succeeds.  A chunk whose attempt
    gives a vector gets one entry at the end of the pending lists: its id,
    that vector, the text that was embedded and its metadata.  A chunk for
    which both requests fail leaves the pending lists as they are; the
    chunks after it, of the same experience and of the next ones, get their
    attempts all the same, and the run does not raise. *)
Theorem embedding_failure_skips_one_chunk sv experiences prepared_list p w :
  Forall2 (λ exp (prepared : list string * string),
             Ingest.description_chunks sv exp = Ok prepared.1
             ∧ Ingest.create_star_format_text exp = Ok prepared.2)
          experiences prepared_list →
  let work := concat (zip_with items_of experiences prepared_list) in
  let outs := outcomes sv (embed_log w) (item_text <$> work) in
  Ingest.process_experiences sv experiences p w
  = (embed_logged w (requests_of outs), Ok (foldl store_outcome p (zip work outs)))
  ∧ length outs = length work
  ∧ ∀ text w',
      (Ingest.get_embedding sv text w').1
      = embed_logged w' (attempt sv (embed_log w') text).1
      ∧ match (Ingest.get_embedding sv text w').2 with
        | Ok v => (attempt sv (embed_log w') text).2 = Some v
        | Raise _ => (attempt sv (embed_log w') text).2 = None
        end.
Proof.
  intros Hall work outs.
  split; [|split; [by subst outs; rewrite outcomes_length, length_fmap|
                   apply ingest_get_embedding_attempt]].
  subst work outs. revert p w.
  induction Hall as [|exp [chunks star_format] experiences prepared_list [Hexp Hstar] _ IH];
    intros p w.
  - cbn. by rewrite embed_logged_nil.
  - cbn [fst snd] in Hexp, Hstar.
    cbn [Ingest.process_experiences zip_with concat].
    unfold bind at 1, lift at 1. rewrite Hexp. unfold bind at 1.
    rewrite (process_chunks_outcomes _ _ _ _ _ _ _ Hstar), IH, embed_log_logged,
      embed_logged_app.
    pose proof (items_of_texts exp (chunks, star_format)) as Htexts.
    cbn [fst snd] in Htexts.
    rewrite fmap_app, outcomes_app, Htexts.
    unfold requests_of. rewrite fmap_app, concat_app.
    assert (length (items_of exp (chunks, star_format))
            = length (outcomes sv (embed_log w) (enumerate chunks).*2)) as Hlen
      by (by rewrite outcomes_length, <-Htexts, !length_fmap).
    rewrite (zip_with_app pair _ _ _ _ Hlen).
    by rewrite foldl_app.
Qed.

Lemma embedding_failure_skips_one_chunk_witness :
  Forall2 (λ exp (prepared : list string * string),
             Ingest.description_chunks Sample.quota exp = Ok prepared.1
             ∧ Ingest.create_star_format_text exp = Ok prepared.2)
          [Sample.experience2; Sample.experience1]
          [Sample.prepared_of Sample.experience2; Sample.prepared_of Sample.experience1]
  ∧ pending_ids (Ingest.process_experiences Sample.quota
                   [Sample.experience2; Sample.experience1] no_pending Sample.fresh)
    = Some ["exp_2_chunk_0"]
  ∧ task_types_sent (Ingest.process_experiences Sample.quota
                       [Sample.experience2; Sample.experience1] no_pending Sample.fresh)
    = [Some "retrieval_document";
       Some "retrieval_document"; None;
       Some "retrieval_document"; None].
Proof.
  assert (Forall2 (λ exp (prepared : list string * string),
                     Ingest.description_chunks Sample.quota exp = Ok prepared.1
                     ∧ Ingest.create_star_format_text exp = Ok prepared.2)
            [Sample.experience2; Sample.experience1]
            [Sample.prepared_of Sample.experience2;
             Sample.prepared_of Sample.experience1])
    as Hprepared by (repeat constructor; vm_compute; reflexivity).
  split; [exact Hprepared|].
  destruct (embedding_failure_skips_one_chunk Sample.quota
              [Sample.experience2; Sample.experience1] _ no_pending
              Sample.fresh Hprepared) as (Hrun & _ & _).
  rewrite Hrun. split; vm_compute; reflexivity.
Defined.

(** ** The entries of a question and its answer *)

Lemma process_answer_chunks_outcomes sv qa i total chunks p w :
  IngestTechnicalQa.process_answer_chunks sv qa i total chunks p w
  = (embed_logged w
       (requests_of
          (outcomes sv (embed_log w)
             ((λ it : nat * string, IngestTechnicalQa.chunk_text_content qa it.1 it.2)
                <$> chunks))),
     Ok (foldl (store_answer_outcome qa i total) p
           (zip chunks
                (outcomes sv (embed_log w)
                   ((λ it : nat * string,
                       IngestTechnicalQa.chunk_text_content qa it.1 it.2) <$> chunks))))).
Proof.
  revert p w. induction chunks as [|[chunk_idx answer_chunk] chunks IH]; intros p w.
  - cbn. by rewrite embed_logged_nil.
  - cbn [IngestTechnicalQa.process_answer_chunks]. unfold bind at 1.
    rewrite qa_try_get_embedding.
    cbn [fmap list_fmap outcomes snd fst zip zip_with foldl].
    unfold requests_of. cbn [fmap list_fmap concat fst].
    rewrite <-embed_logged_app.
    destruct (attempt sv (embed_log w) _) as [requests [v|]]; cbn [fst snd];
      by rewrite IH, embed_log_logged.
Qed.



(** ** Writing the index *)

Lemma store_batches_run name p idxs w :
  store_batches name p idxs w
  = (match idxs with
     | [] => w
     | _ :: _ => with_chroma_db w (foldl (write_batch name p) (default ∅ (chroma_db w)) idxs)
     end, Ok tt).
Proof.
  revert w. induction idxs as [|b idxs IH]; intros w; [done|].
  cbn [store_batches]. unfold bind at 1, call_add, bind at 1, open_chroma_db,
    set_chroma_db. rewrite IH. cbn [foldl].
  destruct idxs as [|b' idxs]; [done|]. done.
Qed.

Lemma delete_write_batches name p idxs (client : Client) :
  delete name (foldl (write_batch name p) client idxs) = delete name client.
Proof.
  revert client. induction idxs as [|b idxs IH]; intros client; [done|].
  cbn [foldl]. rewrite IH. unfold write_batch. apply delete_insert_eq.
Qed.

Lemma lookup_write_batches name p idxs (client : Client) :
  is_Some (client !! name) → is_Some (foldl (write_batch name p) client idxs !! name).
Proof.
  revert client. induction idxs as [|b idxs IH]; intros client Hc; [done|].
  cbn [foldl]. apply IH. unfold write_batch. rewrite lookup_insert_eq. eauto.
Qed.

Lemma batch_add_run name p w client :
  chroma_db w = Some client →
  (batch_add name p w).2 = Ok tt
  ∧ chroma_db (batch_add name p w).1 = Some (filled name p client).
Proof.
  intros Hdb. unfold batch_add, filled. destruct (ids p) as [|chunk_id rest]; [done|].
  rewrite store_batches_run, Hdb. cbn [from_option id].
  by destruct (seq 0 _).
Qed.

(** The loop over the chunks of one experience sends document requests
    and nothing else. *)
Lemma process_chunks_frame sv exp total chunks p w :
  ∃ requests r,
    Ingest.process_chunks sv exp total chunks p w = (embed_logged w requests, r)
    ∧ Forall document_request requests.
Proof.
  destruct (Ingest.create_star_format_text exp) as [star_format|e] eqn:Hstar.
  - rewrite (process_chunks_outcomes _ _ _ _ _ _ _ Hstar).
    eexists _, _. split; [done|apply outcomes_document].
  - destruct (process_chunks_key_error sv exp e total chunks p w Hstar)
      as (requests & r & Hrun & Hdoc & _). eauto.
Qed.

Lemma process_experiences_frame sv experiences p w :
  ∃ requests,
    (Ingest.process_experiences sv experiences p w).1 = embed_logged w requests
    ∧ Forall document_request requests.
Proof.
  revert p w. induction experiences as [|exp experiences IH]; intros p w.
  - exists []. rewrite embed_logged_nil. by split; [|constructor].
  - cbn [Ingest.process_experiences]. unfold bind at 1, lift.
    destruct (Ingest.description_chunks sv exp) as [chunks|e].
    + unfold bind.
      destruct (process_chunks_frame sv exp (length chunks) (enumerate chunks) p w)
        as (requests & r & -> & Hdoc).
      destruct r as [p'|e]; [|eauto].
      destruct (IH p' (embed_logged w requests)) as (rest & Hr & Hrest).
      destruct (Ingest.process_experiences sv experiences p' _) as [w2 r].
      cbn in Hr. subst w2. rewrite embed_logged_app.
      exists (requests ++ rest). split; [done|by apply Forall_app].
    + exists []. rewrite embed_logged_nil. by split; [|constructor].
Qed.

Lemma attempt_same sv log log' text :
  same_answers_again sv → (attempt sv log text).2 = (attempt sv log' text).2.
Proof.
  intros Hsame. unfold attempt.
  rewrite (Hsame log log').
  destruct (embed_content sv log' _); [done|].
  rewrite (Hsame (log ++ _) (log' ++ [MkEmbedRequest "models/embedding-001" text
                                        (Some "retrieval_document")])).
  by destruct (embed_content sv _ _).
Qed.

Lemma process_chunks_same sv exp total chunks p w w' :
  same_answers_again sv →
  (Ingest.process_chunks sv exp total chunks p w).2
  = (Ingest.process_chunks sv exp total chunks p w').2.
Proof.
  intros Hsame. revert p w w'.
  induction chunks as [|[chunk_idx text] chunks IH]; intros p w w'; [done|].
  cbn [Ingest.process_chunks]. unfold bind. rewrite !ingest_try_get_embedding.
  rewrite (attempt_same sv (embed_log w) (embed_log w') text Hsame).
  destruct (attempt sv (embed_log w') text).2; [|apply IH].
  unfold lift. destruct (Ingest.create_star_format_text exp); [apply IH|done].
Qed.

Lemma process_experiences_same sv experiences p w w' :
  same_answers_again sv →
  (Ingest.process_experiences sv experiences p w).2
  = (Ingest.process_experiences sv experiences p w').2.
Proof.
  intros Hsame. revert p w w'.
  induction experiences as [|exp experiences IH]; intros p w w'; [done|].
  cbn [Ingest.process_experiences]. unfold bind at 1 3, lift.
  destruct (Ingest.description_chunks sv exp) as [chunks|e]; [|done].
  unfold bind.
  pose proof (process_chunks_same sv exp (length chunks) (enumerate chunks) p w w' Hsame)
    as Hchunks.
  destruct (Ingest.process_chunks sv exp (length chunks) (enumerate chunks) p w)
    as [w1 r1].
  destruct (Ingest.process_chunks sv exp (length chunks) (enumerate chunks) p w')
    as [w1' r1']. cbn in Hchunks. subst r1'.
  destruct r1 as [p'|e]; [apply IH|done].
Qed.

Lemma recreated_lookup client : recreated client !! Ingest.collection_name = Some ∅.
Proof. unfold recreated, create_collection. apply lookup_insert_eq. Qed.

Lemma recreated_filled p client :
  recreated (filled Ingest.collection_name p (recreated client)) = recreated client.
Proof.
  unfold recreated at 1 3, create_collection, delete_collection. f_equal.
  unfold filled. destruct (ids p); [|rewrite delete_write_batches];
    unfold recreated, create_collection, delete_collection;
    by rewrite delete_insert_eq, delete_delete_eq.
Qed.

Lemma recreated_twice client : recreated (recreated client) = recreated client.
Proof.
  unfold recreated, create_collection, delete_collection.
  by rewrite delete_insert_eq, delete_delete_eq.
Qed.

Lemma filled_lookup p client :
  is_Some (client !! Ingest.collection_name) →
  is_Some (filled Ingest.collection_name p client !! Ingest.collection_name).
Proof.
  intros Hc. unfold filled. destruct (ids p); [done|]. by apply lookup_write_batches.
Qed.

(** The store after a run of [main] that builds the collection. *)
Lemma main_builds sv experiences answer w :
  has_api_key w = true →
  builds_index w answer →
  chroma_db (Ingest.main sv experiences answer w).1
  = Some match (Ingest.process_experiences sv experiences no_pending
                  (with_chroma_db w (recreated (default ∅ (chroma_db w))))).2 with
         | Ok p => filled Ingest.collection_name p (recreated (default ∅ (chroma_db w)))
         | Raise _ => recreated (default ∅ (chroma_db w))
         end.
Proof.
  intros Hkey Hbuilds.
  unfold Ingest.main, bind at 1, getenv_GEMINI_API_KEY.
  unfold has_api_key in Hkey. rewrite Hkey. cbn [negb].
  set (client := default ∅ (chroma_db w)).
  assert (prepare_collection Ingest.collection_name answer w
          = (with_chroma_db w (recreated client), Ok true)) as Hprep.
  { unfold prepare_collection, bind, open_chroma_db, set_chroma_db, get_collection, ret.
    fold client. destruct Hbuilds as [Hnone|Hyes].
    - fold client in Hnone. rewrite Hnone. unfold with_chroma_db, recreated.
      unfold delete_collection. by rewrite (delete_id client) by done.
    - destruct (client !! Ingest.collection_name) eqn:Hc.
      + unfold answered_yes in Hyes. by rewrite bool_decide_eq_true_2.
      + unfold with_chroma_db, recreated, delete_collection.
        by rewrite (delete_id client) by done. }
  unfold bind at 1. rewrite Hprep. unfold bind.
  destruct (process_experiences_frame sv experiences no_pending
              (with_chroma_db w (recreated client))) as (requests & Hframe & _).
  destruct (Ingest.process_experiences sv experiences no_pending
              (with_chroma_db w (recreated client))) as [w1 [p|e]];
    cbn in Hframe; subst w1; cbn [snd fst]; [|done].
  by apply batch_add_run.
Qed.

(** A run of [main] that finds the collection and is not answered with [y]
    ends without a write. *)
Lemma main_keeps sv experiences answer w client :
  has_api_key w = true →
  chroma_db w = Some client →
  is_Some (client !! Ingest.collection_name) →
  ¬ answered_yes answer →
  Ingest.main sv experiences answer w = (w, Ok tt).
Proof.
  intros Hkey Hdb [c Hc] Hno.
  unfold Ingest.main, bind at 1, getenv_GEMINI_API_KEY.
  unfold has_api_key in Hkey. rewrite Hkey. cbn [negb].
  unfold bind, prepare_collection, bind, open_chroma_db, set_chroma_db, get_collection, ret.
  rewrite Hdb. cbn [from_option id]. rewrite Hc.
  unfold answered_yes in Hno. rewrite bool_decide_eq_false_2 by done.
  destruct w. cbn in *. by subst.
Qed.

Lemma main_without_key sv experiences answer w :
  has_api_key w = false →
  Ingest.main sv experiences answer w = (w, Raise (SystemExit 1)).
Proof.
  intros Hkey. unfold Ingest.main, bind at 1, getenv_GEMINI_API_KEY.
  unfold has_api_key in Hkey. by rewrite Hkey.
Qed.

Lemma main_frame sv experiences answer w :
  has_api_key (Ingest.main sv experiences answer w).1 = has_api_key w.
Proof.
  destruct (has_api_key w) eqn:Hkey; [|by rewrite main_without_key].
  unfold Ingest.main, bind at 1, getenv_GEMINI_API_KEY.
  unfold has_api_key in Hkey. rewrite Hkey. cbn [negb].
  assert (∀ w', has_api_key w' = true →
            has_api_key (prepare_collection Ingest.collection_name answer w').1 = true)
    as Hprep.
  { intros w' Hw'. unfold prepare_collection, bind, open_chroma_db, set_chroma_db, ret.
    destruct (get_collection _ _); [case_bool_decide|]; done. }
  specialize (Hprep w Hkey). unfold bind at 1.
  destruct (prepare_collection Ingest.collection_name answer w) as [w1 [proceed|e]];
    cbn in Hprep; [|done].
  destruct proceed; [|done]. unfold bind.
  destruct (process_experiences_frame sv experiences no_pending w1)
    as (requests & Hframe & _).
  destruct (Ingest.process_experiences sv experiences no_pending w1) as [w2 [p|e]];
    cbn in Hframe; subst w2; [|done].
  unfold batch_add. destruct (ids p); [done|]. rewrite store_batches_run.
  by destruct (seq 0 _).
Qed.

(** C4, as the claim states it, fails: the second run on the unchanged
    corpus of one experience, answered with [y], deletes the collection and
    builds it again; the service, which answered the first run, now fails,
    and the index goes from one entry to none. *)
Lemma rerun_shrinks_index :
  index_size first_run.1 = Some 1%nat
  ∧ second_run.2 = Ok tt
  ∧ index_size second_run.1 = Some 0%nat.
Proof. split_and!; by vm_compute. Qed.

(** C4, amended.  The write of the store replaces an entry whose chunk id is
    present and leaves the number of entries as it is.  A second run of the
    ingestion on an unchanged corpus does not write over the entries of the
    first: answered other than [y] it ends without a write; answered [y] it
    deletes the collection, creates it again and fills it.  The index, and
    so its size, is after the second run what it was after the first when
    the second run is not answered [y], or when the embedding service
    answers every request as it did before. *)
Theorem rerun_leaves_index sv experiences answer1 answer2 w :
  builds_index w answer1 →
  same_answers_again sv ∨ ¬ answered_yes answer2 →
  let run1 := Ingest.main sv experiences answer1 w in
  let run2 := Ingest.main sv experiences answer2 run1.1 in
  (chroma_db run2.1 = chroma_db run1.1 ∧ index_size run2.1 = index_size run1.1)
  ∧ ∀ (c : Collection) chunk_id old v d m,
      c !! chunk_id = Some old →
      add c [chunk_id] [v] [d] [m] !! chunk_id = Some (MkIndexEntry v d m)
      ∧ size (add c [chunk_id] [v] [d] [m]) = size c.
Proof.
  intros Hbuilds Hsame run1 run2. split.
  - assert (chroma_db run2.1 = chroma_db run1.1) as Hdb;
      [|by unfold index_size; rewrite Hdb].
    subst run2 run1.
    destruct (has_api_key w) eqn:Hkey;
      [|by rewrite (main_without_key sv experiences answer1 w Hkey); cbn [fst];
           rewrite main_without_key].
    pose proof (main_builds sv experiences answer1 w Hkey Hbuilds) as H1.
    pose proof (main_frame sv experiences answer1 w) as Hkey1. rewrite Hkey in Hkey1.
    set (X := recreated (default ∅ (chroma_db w))) in *.
    set (w1 := (Ingest.main sv experiences answer1 w).1) in *.
    destruct (decide (answered_yes answer2)) as [Hyes|Hno].
    + destruct Hsame as [Hsame|?]; [|done].
      rewrite (main_builds sv experiences answer2 w1 Hkey1) by by right.
      set (P1 := (Ingest.process_experiences sv experiences no_pending
                    (with_chroma_db w X)).2) in *.
      rewrite H1. cbn [from_option id].
      assert (recreated match P1 with
                        | Ok p => filled Ingest.collection_name p X
                        | Raise _ => X
                        end = X) as ->
        by (destruct P1; [apply recreated_filled|apply recreated_twice]).
      by rewrite (process_experiences_same sv experiences no_pending
                    (with_chroma_db w1 X) (with_chroma_db w X) Hsame).
    + erewrite main_keeps; [done|done|exact H1| |done].
      destruct (Ingest.process_experiences _ _ _ _).2.
      * apply filled_lookup. unfold X. rewrite recreated_lookup. eauto.
      * unfold X. rewrite recreated_lookup. eauto.
  - intros c chunk_id old v d m Hold.
    change (add c [chunk_id] [v] [d] [m]) with (<[chunk_id := MkIndexEntry v d m]> c).
    split; [apply lookup_insert_eq|]. by eapply map_size_insert_Some.
Qed.

Lemma rerun_leaves_index_witness :
  builds_index Sample.fresh ""
  ∧ (same_answers_again Sample.up ∨ ¬ answered_yes "y")
  ∧ index_size (Ingest.main Sample.up [Sample.experience1] "y"
                  (Ingest.main Sample.up [Sample.experience1] "" Sample.fresh).1).1
    = index_size (Ingest.main Sample.up [Sample.experience1] "" Sample.fresh).1.
Proof.
  assert (builds_index Sample.fresh "") as Hbuilds by (left; reflexivity).
  assert (same_answers_again Sample.up ∨ ¬ answered_yes "y") as Hsame
    by (left; intros log log' r; reflexivity).
  split; [exact Hbuilds|]. split; [exact Hsame|].
  apply (rerun_leaves_index Sample.up [Sample.experience1] "" "y" Sample.fresh
           Hbuilds Hsame).
Defined.

(** * Further properties *)

(** ** The endpoint: what it leaves alone, its errors, its edge cases *)

Lemma rag_get_embedding_run sv text w :
  RagApi.get_embedding sv text w
  = match embed_content sv (embed_log w) (query_request text) with
    | Vector q => (embed_logged w [query_request text], Ok q)
    | Failure _ =>
      match embed_content sv (embed_log w ++ [query_request text]) (bare_request text) with
      | Vector q => (embed_logged w [query_request text; bare_request text], Ok q)
      | Failure msg =>
        (embed_logged w [query_request text; bare_request text],
         Raise (Exception ("Error generating embedding: " +:+ msg)))
      end
    end.
Proof.
  unfold RagApi.get_embedding, try_except, call_embed_content, raise, embed_logged,
    query_request, bare_request. cbn.
  embed_cases; by rewrite <-?app_assoc.
Qed.

Lemma grown_refl w :
  w = MkWorld (GEMINI_API_KEY w) (chroma_db w) (embed_log w ++ []) (query_log w ++ []).
Proof. destruct w. cbn. by rewrite !app_nil_r. Qed.

(** The world after a call of the endpoint: the one before with longer logs. *)
Lemma retrieve_world sv request w :
  ∃ requests ns,
    (RagApi.retrieve_experiences sv request w).1
    = MkWorld (GEMINI_API_KEY w) (chroma_db w) (embed_log w ++ requests)
              (query_log w ++ ns).
Proof.
  unfold RagApi.retrieve_experiences, RagApi.retrieve_experiences_with, bind at 1, getenv_GEMINI_API_KEY.
  destruct (negb _); [exists [], []; apply grown_refl|].
  unfold bind at 1, open_chroma_db. destruct (chroma_db w) as [client|] eqn:Hdb;
    [|exists [], []; rewrite <-Hdb; apply grown_refl].
  rewrite <-Hdb. unfold bind at 1, try_except at 1, lift.
  destruct (get_collection client "experience_store") as [c|e];
    [|exists [], []; destruct e; apply grown_refl].
  unfold bind at 1, try_except at 1. rewrite rag_get_embedding_run.
  embed_cases;
    unfold bind, try_except, call_store_query, VectorIndex.query, raise, ret, lift,
      embed_logged; cbn;
    first [by (eexists _, []; rewrite (app_nil_r (query_log w)))
          |destruct (RagApi.format_results _ _); by eexists _, [_]].
Qed.

(** X7: the endpoint reads the store and the key and never writes them:
    after any call, failed or not, the store and the key are what they
    were, and the two logs have only grown. *)
Theorem retrieve_never_writes sv request w :
  chroma_db (RagApi.retrieve_experiences sv request w).1 = chroma_db w
  ∧ GEMINI_API_KEY (RagApi.retrieve_experiences sv request w).1 = GEMINI_API_KEY w
  ∧ embed_log w `prefix_of` embed_log (RagApi.retrieve_experiences sv request w).1
  ∧ query_log w `prefix_of` query_log (RagApi.retrieve_experiences sv request w).1.
Proof.
  destruct (retrieve_world sv request w) as (requests & ns & ->). cbn.
  split_and!; [done..|by apply prefix_app_r|by apply prefix_app_r].
Qed.

(** X8: the configuration of the endpoint is checked before anything is
    sent out, in this order: a key that is not set (or empty), a store
    directory that is absent, a collection [experience_store] that is not
    in the store.  Each gives an HTTP error 500 with its own detail and
    leaves the world as it was: no request went to the embedding service
    and no query to the store. *)
Theorem retrieve_configuration_errors sv request w :
  if negb (has_api_key w) then
    RagApi.retrieve_experiences sv request w
    = (w, Raise (HTTPException 500 "GEMINI_API_KEY not set"))
  else
    match chroma_db w with
    | None =>
      RagApi.retrieve_experiences sv request w
      = (w, Raise (HTTPException 500
                     "ChromaDB not initialized. Please run ingest.py first."))
    | Some client =>
      match client !! "experience_store" with
      | None =>
        ∃ cause,
          RagApi.retrieve_experiences sv request w
          = (w, Raise (HTTPException 500 ("Error accessing ChromaDB: " +:+ cause)))
      | Some c => serving w c
      end
    end.
Proof.
  unfold has_api_key.
  assert (∀ api_key, GEMINI_API_KEY w = Some api_key → PyStr.truthy api_key = true →
          RagApi.retrieve_experiences sv request w
          = match chroma_db w with
            | None =>
              (w, Raise (HTTPException 500
                           "ChromaDB not initialized. Please run ingest.py first."))
            | Some client =>
              match client !! "experience_store" with
              | None =>
                (w, Raise (HTTPException 500
                             ("Error accessing ChromaDB: "
                              +:+ exn_str (Exception ("Collection " +:+ "experience_store"
                                                      +:+ " does not exist.")))))
              | Some c => RagApi.retrieve_experiences sv request w
              end
            end) as Hrun.
  { intros api_key Hkey Htruthy.
    destruct (chroma_db w) as [client|] eqn:Hdb;
      [destruct (client !! "experience_store") as [c|] eqn:Hc; [done|]|];
      unfold RagApi.retrieve_experiences, RagApi.retrieve_experiences_with, bind, getenv_GEMINI_API_KEY, open_chroma_db,
        try_except, lift, get_collection;
      rewrite Hkey; cbn [from_option]; rewrite Htruthy; cbn [negb]; rewrite Hdb;
      [by rewrite Hc|done]. }
  destruct (GEMINI_API_KEY w) as [api_key|] eqn:Hkey; cbn [from_option negb];
    [destruct (PyStr.truthy api_key) eqn:Htruthy; cbn [negb]|].
  - specialize (Hrun api_key eq_refl Htruthy).
    destruct (chroma_db w) as [client|] eqn:Hdb; [|done].
    destruct (client !! "experience_store") as [c|] eqn:Hc; [|eauto].
    split; [by exists api_key|by exists client].
  - unfold RagApi.retrieve_experiences, RagApi.retrieve_experiences_with, bind, getenv_GEMINI_API_KEY.
    rewrite Hkey. cbn [from_option]. by rewrite Htruthy.
  - unfold RagApi.retrieve_experiences, RagApi.retrieve_experiences_with, bind, getenv_GEMINI_API_KEY. by rewrite Hkey.
Qed.

(** X9: the embedding of the query.  In a call that reaches the collection
    the first request carries the task type chosen from the text; when it
    fails, a second request without task type is sent and its vector is the
    one the store is searched with; when that fails too, the store is not
    queried at all and the endpoint raises an HTTP error 500 whose detail
    holds the message of the second failure only. *)
Theorem retrieve_embedding_fallback sv request w c :
  serving w c →
  let text := RagApi.query request in
  let k := RagApi.top_k request in
  let searched requests q :=
    (query_logged (embed_logged w requests) (RagApi.n_results k c),
     response_of (RagApi.format_results k (candidates_of sv c q k))) in
  RagApi.retrieve_experiences sv request w
  = match embed_content sv (embed_log w) (query_request text) with
    | Vector q => searched [query_request text] q
    | Failure _ =>
      match embed_content sv (embed_log w ++ [query_request text]) (bare_request text) with
      | Vector q => searched [query_request text; bare_request text] q
      | Failure msg =>
        (embed_logged w [query_request text; bare_request text],
         Raise (HTTPException 500
                  ("Error generating query embedding: Error generating embedding: "
                   +:+ msg)))
      end
    end.
Proof.
  intros Hs text k searched. rewrite (retrieve_experiences_serving _ _ _ _ Hs).
  rewrite rag_get_embedding_run. fold text. by embed_cases.
Qed.

Lemma retrieve_embedding_fallback_witness :
  serving (Sample.world_with Sample.small) Sample.small
  ∧ (RagApi.retrieve_experiences Sample.no_task_type
       (RagApi.MkRetrieveRequest "conflict" 1) (Sample.world_with Sample.small)).2
    = Ok (RagApi.MkRetrieveResponse [RagApi.MkExperience 1 "Title" "Company" "STAR"])
  ∧ task_types_sent (RagApi.retrieve_experiences Sample.no_task_type
                       (RagApi.MkRetrieveRequest "conflict" 1)
                       (Sample.world_with Sample.small))
    = [Some "retrieval_document"; None].
Proof.
  split; [apply sample_serving|].
  rewrite (retrieve_embedding_fallback Sample.no_task_type
             (RagApi.MkRetrieveRequest "conflict" 1) (Sample.world_with Sample.small)
             Sample.small (sample_serving _)).
  split; by vm_compute.
Defined.

(** X10: a [top_k] of zero or less gives the empty list for any candidates
    the store returned, also for candidates whose metadata would not make
    an entry: the loop leaves at the first candidate before it reads more
    than the grouping key. *)
Theorem nonpositive_top_k_empty (top_k : Z) (candidates : list (string * Metadata)) :
  top_k ≤ 0 → RagApi.format_results top_k candidates = Ok [].
Proof.
  intros Hk. rewrite format_results_spec.
  by replace (Z.to_nat top_k) with 0%nat by lia.
Qed.

Lemma nonpositive_top_k_empty_witness :
  -1 ≤ 0 ∧ RagApi.format_results (-1) [("chunk", ∅)] = Ok [].
Proof.
  split; [lia|]. apply (nonpositive_top_k_empty (-1) [("chunk", ∅)]). lia.
Defined.

Lemma first_occurrence_wins_app {A K} `{EqDecision K} (key : A → K) (l1 l2 : list A) :
  first_occurrence_wins key (l1 ++ l2)
  = first_occurrence_wins key l1
    ++ filter (λ y, key y ∉ key <$> l1) (first_occurrence_wins key l2).
Proof.
  induction l1 as [|x l1 IH].
  - cbn [app first_occurrence_wins fmap list_fmap].
    by rewrite filter_keeps_all by (intros y; apply not_elem_of_nil).
  - cbn [app first_occurrence_wins]. rewrite IH, filter_app, list_filter_filter.
    do 2 f_equal. apply list_filter_iff. intros y.
    rewrite fmap_cons, not_elem_of_cons. tauto.
Qed.

Lemma map_result_app {A B} (f : A → result B) (l1 l2 : list A) :
  map_result f (l1 ++ l2)
  = match map_result f l1 with
    | Raise e => Raise e
    | Ok r1 =>
      match map_result f l2 with
      | Raise e => Raise e
      | Ok r2 => Ok (r1 ++ r2)
      end
    end.
Proof.
  induction l1 as [|x l1 IH]; cbn [app map_result].
  - by destruct (map_result f l2).
  - destruct (f x); [|done]. rewrite IH.
    destruct (map_result f l1); [|done]. by destruct (map_result f l2).
Qed.

(** X11: asking for more never reorders or drops what a smaller request
    returns.  When the candidates of one call are the first candidates of
    another call with a [top_k] at least as large, and both return, the
    list of the first call is the beginning of the list of the second. *)
Theorem results_grow_with_top_k (k k' : Z) (candidates candidates' : list (string * Metadata))
    (l l' : list RagApi.Experience) :
  k ≤ k' →
  candidates `prefix_of` candidates' →
  RagApi.format_results k candidates = Ok l →
  RagApi.format_results k' candidates' = Ok l' →
  l `prefix_of` l'.
Proof.
  intros Hk [more ->]. rewrite !format_results_spec, first_occurrence_wins_app.
  set (kept := first_occurrence_wins candidate_key candidates).
  set (later := filter _ _). intros Hl.
  rewrite take_app, <-(take_drop (Z.to_nat k) (take (Z.to_nat k') kept)), take_take,
    <-app_assoc, map_result_app.
  replace (Z.to_nat k `min` Z.to_nat k')%nat with (Z.to_nat k) by lia.
  rewrite Hl.
  match goal with
  | |- context [map_result ?f ?x] => destruct (map_result f x) as [rest|]; [|done]
  end.
  intros [= <-]. by exists rest.
Qed.

Lemma results_grow_with_top_k_witness :
  1 ≤ 2
  ∧ take 2 Sample.candidates `prefix_of` Sample.candidates
  ∧ [RagApi.MkExperience 1 "Title" "Company" "STAR"]
    `prefix_of` [RagApi.MkExperience 1 "Title" "Company" "STAR";
                 RagApi.MkExperience 2 "Title" "Company" "STAR"].
Proof.
  split; [lia|]. split; [apply prefix_take|].
  apply (results_grow_with_top_k 1 2 (take 2 Sample.candidates) Sample.candidates);
    [lia|apply prefix_take|reflexivity|reflexivity].
Defined.

(** ** Ingestion: batches, pending lists, chunks *)

Lemma batches_up_to {A} (l : list A) (n : nat) :
  concat (batch_of l <$> seq 0 n) = take (n * batch_size) l.
Proof.
  induction n as [|n IH]; [done|].
  rewrite seq_S, fmap_app, concat_app, IH. cbn [fmap list_fmap concat].
  rewrite app_nil_r. unfold batch_of, slice, batch_size. cbn [plus].
  destruct (decide (n * 100 ≤ length l)%nat) as [Hle|Hgt].
  - rewrite take_take_drop.
    destruct (decide ((n + 1) * 100 ≤ length l)%nat).
    + f_equal. lia.
    + rewrite !take_ge; [done|lia..].
  - replace (((n + 1) * 100) `min` length l - n * 100)%nat with 0%nat by lia.
    rewrite app_nil_r, !take_ge; [done|lia..].
Qed.

(** X1: the batches of the final write.  Cutting a pending list into
    [total_batches] slices of [batch_size] loses, repeats and reorders
    nothing: the slices in order give the list back; each slice has at
    least one and at most 100 entries. *)
Theorem batches_partition {A} (l : list A) :
  concat (batch_of l <$> seq 0 (total_batches_of l)) = l
  ∧ Forall (λ b, (1 ≤ length (batch_of l b) ≤ 100)%nat) (seq 0 (total_batches_of l)).
Proof.
  unfold total_batches_of. split.
  - rewrite batches_up_to. apply take_ge.
    pose proof (Nat.mul_succ_div_gt (length l + batch_size - 1) batch_size) as H.
    unfold batch_size in *. lia.
  - apply Forall_forall. intros b [_ Hb]%elem_of_seq.
    pose proof (Nat.Div0.mul_div_le (length l + batch_size - 1) batch_size) as H.
    unfold batch_of, slice. rewrite length_take, length_drop.
    unfold batch_size in *. nia.
Qed.

(** The slices that [store_batches] takes, whose end index is written with
    the smaller of the batch size and the length taken first, are the
    slices [batch_of] of the source for every batch of the loop. *)
Lemma store_batches_slice {A} (l : list A) (len b : nat) :
  length l = len →
  (b < total_batches_of l)%nat →
  slice (b * batch_size) ((b + 1) * batch_size `min` len) l = batch_of l b.
Proof.
  intros <- Hb. unfold total_batches_of in Hb.
  pose proof (Nat.Div0.mul_div_le (length l + batch_size - 1) batch_size) as Hdiv.
  unfold batch_of, slice, batch_size in *.
  destruct (decide (100 ≤ length l)%nat) as [Hlong|Hshort].
  - rewrite Nat.min_l by done.
    destruct (decide ((b + 1) * 100 ≤ length l)%nat).
    + by rewrite (Nat.min_l ((b + 1) * 100)) by done.
    + rewrite !take_ge; [done|rewrite length_drop; lia..].
  - assert (b = 0%nat) as ->.
    { destruct (decide (length l = 0)%nat) as [H0|?]; [rewrite H0 in Hb; cbn in Hb|];
        nia. }
    rewrite Nat.min_r by lia. f_equal. lia.
Qed.

Lemma extends_refl counted p : extends counted p p.
Proof.
  exists [], [], [], []. rewrite !app_nil_r. split_and!; [done..|cbn; lia].
Qed.

Lemma extends_trans counted p1 p2 p3 :
  extends counted p1 p2 → extends counted p2 p3 → extends counted p1 p3.
Proof.
  intros (i1 & e1 & d1 & m1 & Hi1 & He1 & Hd1 & Hm1 & Hle1 & Hld1 & Hlm1 & Hc1)
         (i2 & e2 & d2 & m2 & Hi2 & He2 & Hd2 & Hm2 & Hle2 & Hld2 & Hlm2 & Hc2).
  exists (i1 ++ i2), (e1 ++ e2), (d1 ++ d2), (m1 ++ m2).
  rewrite Hi2, He2, Hd2, Hm2, Hi1, He1, Hd1, Hm1, <-!app_assoc, !length_app.
  split_and!; [done..|lia|lia|lia|lia].
Qed.

Lemma extends_pending_ok counted p p' : extends counted p p' → pending_ok p → pending_ok p'.
Proof.
  intros (i1 & e1 & d1 & m1 & Hi1 & He1 & Hd1 & Hm1 & Hle1 & Hld1 & Hlm1 & Hc1)
         (He & Hd & Hm).
  unfold pending_ok. rewrite Hi1, He1, Hd1, Hm1, !length_app. lia.
Qed.

Lemma extends_ids counted p p' : extends counted p p' → ids p `prefix_of` ids p'.
Proof. intros (i1 & _ & _ & _ & Hi1 & _). by exists i1. Qed.

Lemma append_entry_extends counted p chunk_id embedding document metadata :
  extends counted p (append_entry p chunk_id embedding document metadata counted).
Proof.
  exists [chunk_id], [embedding], [document], [metadata].
  unfold append_entry. cbn. split_and!; [done..|lia].
Qed.

Lemma store_outcome_extends io p : extends 1 p (store_outcome p io).
Proof.
  unfold store_outcome. destruct io.2.2 as [v|]; [|apply extends_refl].
  eexists [_], [_], [_], [_]. cbn. split_and!; [done..|lia].
Qed.

Lemma store_outcomes_extend ios p : extends 1 p (foldl store_outcome p ios).
Proof.
  revert p. induction ios as [|io ios IH]; intros p; cbn [foldl];
    [apply extends_refl|].
  eapply extends_trans; [apply store_outcome_extends|apply IH].
Qed.

Lemma store_answer_outcomes_extend qa i total ios p :
  extends 0 p (foldl (store_answer_outcome qa i total) p ios).
Proof.
  revert p. induction ios as [|[[idx text] [requests [v|]]] ios IH];
    intros p; cbn [foldl store_answer_outcome]; [apply extends_refl| |apply IH].
  eapply extends_trans; [apply append_entry_extends|apply IH].
Qed.

(** What the loop over the chunks of one experience leaves pending when it
    returns: the entries of the vectors it got, or, for an experience
    without a key of the STAR text, what was pending before. *)
Lemma process_chunks_returns sv exp total chunks p w w' p' :
  Ingest.process_chunks sv exp total chunks p w = (w', Ok p') →
  p' = p
  ∨ ∃ star_format,
      Ingest.create_star_format_text exp = Ok star_format
      ∧ p' = foldl store_outcome p
               (zip ((λ it : nat * string, MkWorkItem exp star_format total it.1 it.2)
                       <$> chunks)
                    (outcomes sv (embed_log w) (snd <$> chunks))).
Proof.
  destruct (Ingest.create_star_format_text exp) as [star_format|e] eqn:Hstar.
  - rewrite (process_chunks_outcomes _ _ _ _ _ _ _ Hstar). intros [= _ <-]. eauto.
  - destruct (process_chunks_key_error sv exp e total chunks p w Hstar)
      as (requests & r & -> & _ & [-> | ->]); [|done]. intros [= _ <-]. by left.
Qed.

Lemma process_experiences_extends sv experiences p w w' p' :
  Ingest.process_experiences sv experiences p w = (w', Ok p') →
  extends 1 p p'.
Proof.
  revert p w. induction experiences as [|exp experiences IH]; intros p w.
  - intros [= _ <-]. apply extends_refl.
  - cbn [Ingest.process_experiences]. unfold bind at 1, lift.
    destruct (Ingest.description_chunks sv exp) as [chunks|e]; [|done].
    unfold bind.
    destruct (Ingest.process_chunks sv exp (length chunks) (enumerate chunks) p w)
      as [w1 [p1|e]] eqn:Hchunks; [|done].
    intros Hrest. eapply extends_trans; [|exact (IH _ _ Hrest)].
    apply process_chunks_returns in Hchunks as [->|(star_format & _ & ->)];
      [apply extends_refl|apply store_outcomes_extend].
Qed.

(** X2: the pending lists of [ingest.py].  Whatever the service answers, a
    run of the loop over the experiences that does not raise only appends
    to the pending lists: each of [ids], [embeddings], [documents] and
    [metadatas] is afterwards what it was before with new elements at its
    end, as many for each of the four, and [chunk_count] has grown by that
    number; so lists of one length stay of one length. *)
Theorem pending_lists_in_step sv experiences p w w' p' :
  Ingest.process_experiences sv experiences p w = (w', Ok p') →
  extends 1 p p' ∧ (pending_ok p → pending_ok p').
Proof.
  intros Hrun%process_experiences_extends.
  split; [done|by eapply extends_pending_ok].
Qed.

Lemma pending_lists_in_step_witness :
  Ingest.process_experiences Sample.up [Sample.experience1] no_pending Sample.fresh
  = (sample_world_after, Ok sample_pending)
  ∧ extends 1 no_pending sample_pending
  ∧ (pending_ok no_pending → pending_ok sample_pending).
Proof.
  assert (Ingest.process_experiences Sample.up [Sample.experience1] no_pending
            Sample.fresh = (sample_world_after, Ok sample_pending)) as Hrun
    by (vm_compute; reflexivity).
  split; [exact Hrun|].
  apply (pending_lists_in_step Sample.up [Sample.experience1] no_pending Sample.fresh
           sample_world_after sample_pending Hrun).
Defined.

Lemma process_qa_extends sv qa i p w w' p' :
  IngestTechnicalQa.process_qa sv qa i p w = (w', Ok p') → extends 0 p p'.
Proof.
  unfold IngestTechnicalQa.process_qa.
  destruct (decide (500 < PyStr.len (default "" (IngestTechnicalQa.qa_answer qa)))).
  - unfold bind at 1, lift.
    destruct (IngestTechnicalQa.chunk_text sv _ 300 50) as [chunks|e]; [|done].
    rewrite process_answer_chunks_outcomes. intros [= _ <-].
    apply store_answer_outcomes_extend.
  - unfold bind. rewrite qa_try_get_embedding.
    destruct (attempt sv (embed_log w) _).2; intros [= _ <-];
      [apply append_entry_extends|apply extends_refl].
Qed.

Lemma process_qa_pairs_extends sv qa_pairs i p w w' p' :
  IngestTechnicalQa.process_qa_pairs sv qa_pairs i p w = (w', Ok p') →
  extends 0 p p'.
Proof.
  revert i p w. induction qa_pairs as [|qa qa_pairs IH]; intros i p w.
  - intros [= _ <-]. apply extends_refl.
  - cbn [IngestTechnicalQa.process_qa_pairs]. unfold bind.
    destruct (IngestTechnicalQa.process_qa sv qa i p w) as [w1 [p1|e]] eqn:Hqa; [|done].
    intros Hrest. eapply extends_trans; [exact (process_qa_extends _ _ _ _ _ _ _ Hqa)|].
    exact (IH _ _ _ Hrest).
Qed.

(** X3: the pending lists of [ingest_technical_qa.py].  A run of the loop
    over the pairs that does not raise only appends to the pending lists:
    each of [ids], [embeddings], [documents] and [metadatas] is afterwards
    what it was before with new elements at its end, as many for each of
    the four; so lists of one length stay of one length (this script keeps
    no count). *)
Theorem qa_pending_lists_in_step sv qa_pairs i p w w' p' :
  IngestTechnicalQa.process_qa_pairs sv qa_pairs i p w = (w', Ok p') →
  extends 0 p p' ∧ (pending_ok p → pending_ok p').
Proof.
  intros Hrun%process_qa_pairs_extends.
  split; [done|by eapply extends_pending_ok].
Qed.

Lemma qa_pending_lists_in_step_witness :
  IngestTechnicalQa.process_qa_pairs Sample.up [Sample.short_pair] 1 no_pending
    Sample.fresh
  = (sample_qa_world_after, Ok sample_qa_pending)
  ∧ extends 0 no_pending sample_qa_pending
  ∧ (pending_ok no_pending → pending_ok sample_qa_pending).
Proof.
  assert (IngestTechnicalQa.process_qa_pairs Sample.up [Sample.short_pair] 1 no_pending
            Sample.fresh = (sample_qa_world_after, Ok sample_qa_pending)) as Hrun
    by (vm_compute; reflexivity).
  split; [exact Hrun|].
  apply (qa_pending_lists_in_step Sample.up [Sample.short_pair] 1 no_pending
           Sample.fresh sample_qa_world_after sample_qa_pending Hrun).
Defined.

Lemma string_app_assoc (s1 s2 s3 : string) : (s1 +:+ s2) +:+ s3 = s1 +:+ s2 +:+ s3.
Proof.
  induction s1 as [|c s1 IH]; [done|].
  change (String c ((s1 +:+ s2) +:+ s3) = String c (s1 +:+ s2 +:+ s3)). by rewrite IH.
Qed.

Lemma full_experience_text_header exp :
  ∃ rest, Ingest.full_experience_text exp = header_of exp +:+ rest.
Proof.
  unfold Ingest.full_experience_text, header_of. eexists.
  by rewrite !string_app_assoc.
Qed.

Lemma with_context_header exp chunk :
  ∃ rest, Ingest.with_context exp chunk = header_of exp +:+ rest.
Proof.
  unfold Ingest.with_context, header_of. eexists. by rewrite !string_app_assoc.
Qed.

(** X4: every experience yields at least one text to embed, whatever the
    splitter returns (no chunk, a blank chunk, many chunks), unless the
    splitter raises; and every such text starts with the title and the
    company of the experience. *)
Theorem every_experience_has_chunks sv exp chunks :
  Ingest.description_chunks sv exp = Ok chunks →
  chunks ≠ [] ∧ Forall (λ c, ∃ rest, c = header_of exp +:+ rest) chunks.
Proof.
  unfold Ingest.description_chunks.
  destruct (Ingest.chunk_description sv _ 300 50) as [parts|e]; [|done].
  intros [= <-].
  assert (∀ parts', Forall (λ c, ∃ rest, c = header_of exp +:+ rest)
                           (Ingest.with_context exp <$> parts')) as Hctx.
  { intros parts'. apply Forall_fmap, Forall_forall. intros c _.
    apply with_context_header. }
  destruct parts as [|c [|c' parts]].
  - split; [done|]. repeat constructor. apply full_experience_text_header.
  - destruct (negb _).
    + split; [done|]. repeat constructor. apply full_experience_text_header.
    + split; [done|]. apply Hctx.
  - split; [done|]. apply Hctx.
Qed.

Lemma every_experience_has_chunks_witness :
  Ingest.description_chunks Sample.up Sample.experience2
  = Ok (Sample.chunks_of Sample.experience2)
  ∧ Sample.chunks_of Sample.experience2 ≠ []
  ∧ Forall (λ c, ∃ rest, c = header_of Sample.experience2 +:+ rest)
           (Sample.chunks_of Sample.experience2).
Proof.
  assert (Ingest.description_chunks Sample.up Sample.experience2
          = Ok (Sample.chunks_of Sample.experience2)) as Hchunks
    by (vm_compute; reflexivity).
  split; [exact Hchunks|].
  apply (every_experience_has_chunks Sample.up Sample.experience2
           (Sample.chunks_of Sample.experience2) Hchunks).
Defined.

(** X5: an experience whose description is missing, empty or made of white
    space only is embedded as one text, the full text of the experience
    (title, company, situation, task, action, result); the splitter is not
    called for it. *)
Theorem blank_description_full_text sv exp :
  PyStr.all_space (default "" (Ingest.exp_description exp)) = true →
  Ingest.description_chunks sv exp = Ok [Ingest.full_experience_text exp].
Proof.
  intros Hblank. unfold Ingest.description_chunks.
  rewrite chunk_description_cases, Hblank.
  assert (PyStr.strip (default "" (Ingest.exp_description exp)) = "") as ->
    by by apply strip_empty_iff.
  done.
Qed.

Lemma blank_description_full_text_witness :
  PyStr.all_space (default "" (Ingest.exp_description Sample.experience1)) = true
  ∧ Ingest.description_chunks Sample.down Sample.experience1
    = Ok [Ingest.full_experience_text Sample.experience1].
Proof.
  split; [reflexivity|].
  apply (blank_description_full_text Sample.down Sample.experience1). reflexivity.
Defined.

(** ** Chunk ids *)

Lemma pretty_N_char_not_underscore x : pretty_N_char x ≠ underscore.
Proof. unfold pretty_N_char. by repeat case_match. Qed.

Lemma pretty_N_go_no_underscore x s :
  occurs underscore s = false → occurs underscore (pretty_N_go x s) = false.
Proof.
  revert s. induction (N.lt_wf_0 x) as [x _ IH]; intros s Hs.
  assert (x = 0 ∨ 0 < x)%N as [->|Hx] by lia.
  - by rewrite pretty_N_go_0.
  - rewrite pretty_N_go_step by done. apply IH; [by apply N.div_lt|].
    cbn [occurs]. rewrite Hs, orb_false_r. apply bool_decide_eq_false_2.
    intros Heq. by apply (pretty_N_char_not_underscore (x `mod` 10)%N).
Qed.

Lemma of_int_no_underscore z : occurs underscore (PyStr.of_int z) = false.
Proof.
  assert (∀ n : N, occurs underscore (pretty n) = false) as HN.
  { intros n. unfold pretty, pretty_N. case_decide; [done|].
    by apply pretty_N_go_no_underscore. }
  unfold PyStr.of_int, pretty, pretty_Z. destruct z as [|p|p]; [done|apply HN|].
  change (occurs underscore ("-" +:+ pretty (Npos p)) = false).
  cbn [occurs String.app append]. apply HN.
Qed.

(** Two strings that agree up to and after their first underscore. *)
Lemma split_at_underscore a a' r r' :
  occurs underscore a = false → occurs underscore a' = false →
  a +:+ String underscore r = a' +:+ String underscore r' → a = a' ∧ r = r'.
Proof.
  revert a'. induction a as [|c a IH]; intros [|c' a'] Ha Ha' Heq; cbn in *.
  - by simplify_eq.
  - simplify_eq; by rewrite bool_decide_eq_true_2 in Ha'.
  - simplify_eq; by rewrite bool_decide_eq_true_2 in Ha.
  - apply orb_false_elim in Ha as [_ Ha]. apply orb_false_elim in Ha' as [_ Ha'].
    injection Heq as -> Heq. destruct (IH a' Ha Ha' Heq) as [-> ->]. done.
Qed.

Lemma chunk_id_of_parts exp exp' chunk_idx chunk_idx' :
  Ingest.chunk_id_of exp chunk_idx = Ingest.chunk_id_of exp' chunk_idx' →
  Ingest.exp_id exp = Ingest.exp_id exp' ∧ chunk_idx = chunk_idx'.
Proof.
  unfold Ingest.chunk_id_of. intros Heq.
  apply (inj (String.app "exp_")) in Heq.
  change "_chunk_" with (String underscore "chunk_") in Heq.
  change (?a +:+ String underscore "chunk_" +:+ ?b)
    with (a +:+ String underscore ("chunk_" +:+ b)) in Heq.
  apply split_at_underscore in Heq as [Hid Hidx]; [|apply of_int_no_underscore..].
  apply (inj (String.app "chunk_")) in Hidx.
  split; [by apply (inj pretty) in Hid|].
  apply (inj pretty) in Hidx. lia.
Qed.

(** X6: the id of a chunk names its experience and its index: two chunk
    ids of [ingest.py] are equal only for experiences with the same [id]
    and for the same chunk index (the decimal form of a number holds no
    underscore, so the parts of an id cannot run into each other). *)
Theorem chunk_id_of_inj exp exp' chunk_idx chunk_idx' :
  Ingest.chunk_id_of exp chunk_idx = Ingest.chunk_id_of exp' chunk_idx' →
  Ingest.exp_id exp = Ingest.exp_id exp' ∧ chunk_idx = chunk_idx'.
Proof. apply chunk_id_of_parts. Qed.

Lemma chunk_id_of_inj_witness :
  Ingest.chunk_id_of Sample.experience1 0 = Ingest.chunk_id_of Sample.experience1 0
  ∧ Ingest.exp_id Sample.experience1 = Ingest.exp_id Sample.experience1 ∧ 0%nat = 0%nat.
Proof.
  split; [reflexivity|].
  apply (chunk_id_of_inj Sample.experience1 Sample.experience1 0 0). reflexivity.
Defined.

Lemma store_outcomes_ids ios p :
  ∃ s, ids (foldl store_outcome p ios) = ids p ++ s
       ∧ s `sublist_of`
           ((λ io : work_item * (list EmbedRequest * option Embedding),
               Ingest.chunk_id_of (item_exp io.1) (item_chunk_idx io.1)) <$> ios).
Proof.
  revert p. induction ios as [|[item [requests [v|]]] ios IH];
    intros p; cbn [foldl fmap list_fmap fst snd].
  - exists []. by rewrite app_nil_r.
  - destruct (IH (store_outcome p (item, (requests, Some v)))) as (s & -> & Hs).
    exists (Ingest.chunk_id_of (item_exp item) (item_chunk_idx item) :: s).
    cbn. rewrite <-app_assoc. split; [done|]. by apply sublist_skip.
  - destruct (IH p) as (s & Hp & Hs). exists s. split; [exact Hp|].
    by apply sublist_cons.
Qed.

Lemma fmap_of_fst_zip {A B C} (f : A → C) (l : list A) (k : list B) :
  (length l ≤ length k)%nat → (λ p : A * B, f p.1) <$> zip l k = f <$> l.
Proof.
  revert k. induction l as [|x l IH]; intros [|y k] Hlen; cbn in *; [done|done|lia|].
  f_equal. apply IH. lia.
Qed.

Lemma enumerate_indices {A} (l : list A) : (enumerate l).*1 = seq 0 (length l).
Proof. unfold enumerate. apply fst_zip. by rewrite length_seq. Qed.

(** The ids that the loop over the chunks of one experience appends: some
    of the ids of its chunks, in order. *)
Lemma process_chunks_ids sv exp chunks p w w' p' :
  Ingest.process_chunks sv exp (length chunks) (enumerate chunks) p w = (w', Ok p') →
  ∃ s, ids p' = ids p ++ s
       ∧ s `sublist_of` (Ingest.chunk_id_of exp <$> seq 0 (length chunks)).
Proof.
  intros [->|(star_format & _ & ->)]%process_chunks_returns.
  { exists []. rewrite app_nil_r. split; [done|apply sublist_nil_l]. }
  destruct (store_outcomes_ids
              (zip ((λ it : nat * string,
                       MkWorkItem exp star_format (length chunks) it.1 it.2)
                      <$> enumerate chunks)
                   (outcomes sv (embed_log w) (enumerate chunks).*2)) p)
    as (s & Hs & Hsub).
  exists s. split; [done|].
  pose proof (fmap_of_fst_zip
                (λ item : work_item,
                   Ingest.chunk_id_of (item_exp item) (item_chunk_idx item))
                ((λ it : nat * string,
                    MkWorkItem exp star_format (length chunks) it.1 it.2)
                   <$> enumerate chunks)
                (outcomes sv (embed_log w) (enumerate chunks).*2)) as Hzip.
  cbn beta in Hzip. rewrite Hzip in Hsub by (by rewrite outcomes_length, !length_fmap).
  rewrite <-list_fmap_compose in Hsub.
  by rewrite <-enumerate_indices, <-list_fmap_compose.
Qed.

Lemma process_experiences_ids sv experiences p w w' p' :
  Ingest.process_experiences sv experiences p w = (w', Ok p') →
  NoDup (Ingest.exp_id <$> experiences) →
  NoDup (ids p) →
  (∀ exp idx, exp ∈ experiences → Ingest.chunk_id_of exp idx ∉ ids p) →
  NoDup (ids p').
Proof.
  revert p w. induction experiences as [|exp experiences IH]; intros p w.
  - by intros [= _ <-].
  - cbn [Ingest.process_experiences]. unfold bind at 1, lift.
    destruct (Ingest.description_chunks sv exp) as [chunks|e]; [|done].
    unfold bind.
    destruct (Ingest.process_chunks sv exp (length chunks) (enumerate chunks) p w)
      as [w1 [p1|e]] eqn:Hchunks; [|done].
    intros Hrest Hexps Hnd Hfresh.
    apply process_chunks_ids in Hchunks as (s & Hp1 & Hsub).
    rewrite fmap_cons in Hexps. apply NoDup_cons in Hexps as [Hexp Hexps].
    assert (∀ id, id ∈ s → ∃ idx, id = Ingest.chunk_id_of exp idx) as Hs.
    { intros id Hid. eapply elem_of_sublist in Hid; [|exact Hsub].
      apply list_elem_of_fmap in Hid as (idx & -> & _). eauto. }
    apply (IH _ _ Hrest Hexps); rewrite Hp1.
    + apply NoDup_app. split_and!; [done| |].
      * intros id Hid (idx & ->)%Hs. apply (Hfresh exp idx); [left|done].
      * refine (sublist_NoDup _ _ _ Hsub). apply NoDup_fmap_2_strong; [|apply NoDup_seq].
        intros x y _ _ [_ ?]%chunk_id_of_parts. done.
    + intros exp' idx' Hexp' [Hin|Hin]%elem_of_app.
      * apply (Hfresh exp' idx'); [by right|done].
      * apply Hs in Hin as (idx & [Hid _]%chunk_id_of_parts).
        apply Hexp. rewrite <-Hid. by apply list_elem_of_fmap_2.
Qed.

(** X12: no two pending entries of a run share an id when the experiences
    have pairwise different [id]s: whichever chunks are embedded, the ids
    pending at the end of the loop are pairwise different, so that no write
    of the run lands on another entry of the same run. *)
Theorem pending_ids_distinct sv experiences w w' p' :
  NoDup (Ingest.exp_id <$> experiences) →
  Ingest.process_experiences sv experiences no_pending w = (w', Ok p') →
  NoDup (ids p').
Proof.
  intros Hexps Hrun.
  apply (process_experiences_ids _ _ _ _ _ _ Hrun Hexps); [constructor|].
  intros exp idx _. apply not_elem_of_nil.
Qed.

Lemma pending_ids_distinct_witness :
  NoDup (Ingest.exp_id <$> [Sample.experience1])
  ∧ Ingest.process_experiences Sample.up [Sample.experience1] no_pending Sample.fresh
    = (sample_world_after, Ok sample_pending)
  ∧ NoDup (ids sample_pending).
Proof.
  assert (NoDup (Ingest.exp_id <$> [Sample.experience1])) as Hexps
    by (cbn; apply NoDup_singleton).
  assert (Ingest.process_experiences Sample.up [Sample.experience1] no_pending
            Sample.fresh = (sample_world_after, Ok sample_pending)) as Hrun
    by (vm_compute; reflexivity).
  split; [exact Hexps|]. split; [exact Hrun|].
  apply (pending_ids_distinct Sample.up [Sample.experience1] Sample.fresh
           sample_world_after sample_pending Hexps Hrun).
Defined.

(** ** The final write *)

Lemma pending_entries_length p :
  pending_ok p → length (pending_entries p) = length (ids p).
Proof.
  intros (He & Hd & Hm). unfold pending_entries, entries_of.
  rewrite !length_zip_with. lia.
Qed.

Lemma entries_of_batch p b :
  pending_ok p →
  entries_of (batch_of (ids p) b) (batch_of (embeddings p) b)
             (batch_of (documents p) b) (batch_of (metadatas p) b)
  = batch_of (pending_entries p) b.
Proof.
  intros Hok. pose proof (pending_entries_length p Hok) as Hlen.
  destruct Hok as (He & Hd & Hm).
  unfold batch_of, slice. rewrite He, Hd, Hm, Hlen.
  unfold pending_entries, entries_of.
  by rewrite !zip_with_drop, !zip_with_take.
Qed.

Lemma write_batch_entries name p client b :
  pending_ok p →
  (b < total_batches_of (ids p))%nat →
  write_batch name p client b
  = <[name := foldl write_entry (default ∅ (client !! name))
                    (batch_of (pending_entries p) b)]> client.
Proof.
  intros Hok Hb. pose proof Hok as (He & Hd & Hm). unfold write_batch.
  unfold total_batches_of in Hb.
  rewrite (store_batches_slice (ids p)), (store_batches_slice (embeddings p)),
    (store_batches_slice (documents p)), (store_batches_slice (metadatas p));
    unfold total_batches_of; rewrite ?He, ?Hd, ?Hm; try done.
  unfold add. by rewrite entries_of_batch.
Qed.

Lemma foldl_write_batches name p client n :
  pending_ok p →
  (S n ≤ total_batches_of (ids p))%nat →
  foldl (write_batch name p) client (seq 0 (S n))
  = <[name := foldl write_entry (default ∅ (client !! name))
                    (take (S n * batch_size) (pending_entries p))]> client.
Proof.
  intros Hok. induction n as [|n IH]; intros Hn.
  - cbn [seq foldl]. rewrite write_batch_entries by (done || lia).
    pose proof (batches_up_to (pending_entries p) 1) as H1.
    cbn [seq fmap list_fmap concat] in H1. rewrite app_nil_r in H1. by rewrite H1.
  - rewrite seq_S, foldl_app, IH by lia. cbn [foldl plus].
    rewrite write_batch_entries by (done || lia).
    rewrite lookup_insert_eq, insert_insert_eq. cbn [from_option id].
    rewrite <-foldl_app. f_equal. f_equal.
    rewrite <-!batches_up_to, (seq_S (S n)), fmap_app, concat_app.
    cbn [fmap list_fmap concat plus]. by rewrite app_nil_r.
Qed.

Lemma filled_is_add name p client :
  pending_ok p →
  filled name p client
  = match ids p with
    | [] => client
    | _ :: _ =>
      <[name := add (default ∅ (client !! name)) (ids p) (embeddings p) (documents p)
                    (metadatas p)]> client
    end.
Proof.
  intros Hok. unfold filled. destruct (ids p) as [|chunk_id rest] eqn:Hids; [done|].
  pose proof (Nat.mul_succ_div_gt (length (ids p) + batch_size - 1) batch_size) as Hup.
  pose proof (pending_entries_length p Hok) as Hlen.
  assert (length (ids p) = S (length rest)) as Hpos by by rewrite Hids.
  rewrite <-Hids.
  destruct ((length (ids p) + batch_size - 1) / batch_size)%nat as [|n] eqn:Htotal.
  { unfold batch_size in *. lia. }
  rewrite foldl_write_batches by (done || unfold total_batches_of; lia).
  unfold add. fold (pending_entries p). rewrite take_ge; [done|].
  unfold batch_size in *. lia.
Qed.

(** X13: the batches are a concern of the write only.  For pending lists
    of one length, [batch_add] leaves the collection as one write of all
    the pending entries, in their order, would leave it (with the store's
    write modelled entry by entry); with nothing pending it does not touch
    the store. *)
Theorem batched_write_is_one_write name p w client :
  pending_ok p →
  chroma_db w = Some client →
  chroma_db (batch_add name p w).1
  = Some match ids p with
         | [] => client
         | _ :: _ =>
           <[name := add (default ∅ (client !! name)) (ids p) (embeddings p)
                         (documents p) (metadatas p)]> client
         end.
Proof.
  intros Hok Hdb. destruct (batch_add_run name p w client Hdb) as [_ ->].
  by rewrite filled_is_add.
Qed.

Lemma batched_write_is_one_write_witness :
  pending_ok sample_pending
  ∧ chroma_db (Sample.world_with ∅) = Some {["experience_store" := ∅]}
  ∧ index_size (batch_add "experience_store" sample_pending (Sample.world_with ∅)).1
    = Some 1%nat.
Proof.
  assert (pending_ok sample_pending) as Hok by (by vm_compute).
  split; [exact Hok|]. split; [reflexivity|].
  unfold index_size.
  rewrite (batched_write_is_one_write "experience_store" sample_pending
             (Sample.world_with ∅) {["experience_store" := ∅]} Hok eq_refl).
  by vm_compute.
Defined.

(** ** From the ingestion to the endpoint *)

Lemma slice_elem_of {A} (l : list A) start stop x : x ∈ slice start stop l → x ∈ l.
Proof.
  unfold slice. intros Hx. eapply subseteq_drop, subseteq_take, Hx.
Qed.

Lemma entries_of_metadata ids' embs docs mds :
  Forall (λ kv : string * IndexEntry, entry_metadata kv.2 ∈ mds)
         (entries_of ids' embs docs mds).
Proof.
  apply Forall_forall. intros [k e] Hin. unfold entries_of in Hin.
  apply elem_of_zip_r in Hin. apply elem_of_zip_with in Hin as (v & [d m] & -> & _ & Hdm).
  by apply elem_of_zip_r in Hdm.
Qed.

Lemma add_lookup (c : Collection) ids' embs docs mds k e :
  add c ids' embs docs mds !! k = Some e →
  c !! k = Some e ∨ entry_metadata e ∈ mds.
Proof.
  unfold add. generalize (entries_of_metadata ids' embs docs mds).
  generalize (entries_of ids' embs docs mds). intros E HE. revert c.
  induction E as [|[k' e'] E IH]; intros c; cbn [foldl]; [auto|].
  intros [Hc|?]%IH; [|auto|by apply Forall_cons in HE as [_ ?]].
  unfold write_entry in Hc. cbn in Hc. apply lookup_insert_Some in Hc as [[-> ->]|[_ ?]];
    [|auto]. right. by apply Forall_cons in HE as [? _].
Qed.

(** An entry of the collection after the batches: one that was there before
    them, or one with a pending metadata. *)
Lemma write_batches_lookup name p idxs (client : Client) c k e :
  foldl (write_batch name p) client idxs !! name = Some c →
  c !! k = Some e →
  default ∅ (client !! name) !! k = Some e ∨ entry_metadata e ∈ metadatas p.
Proof.
  revert client. induction idxs as [|b idxs IH]; intros client; cbn [foldl].
  - intros -> Hk. by left.
  - intros Hc Hk. destruct (IH _ Hc Hk) as [Hold|?]; [|by right].
    unfold write_batch in Hold. rewrite lookup_insert_eq in Hold. cbn in Hold.
    apply add_lookup in Hold as [?|Hin]; [by left|].
    right. by apply slice_elem_of in Hin.
Qed.

Lemma filled_lookup_entry p client c k e :
  filled Ingest.collection_name p (recreated client) !! Ingest.collection_name = Some c →
  c !! k = Some e →
  entry_metadata e ∈ metadatas p.
Proof.
  unfold filled. destruct (ids p).
  - rewrite recreated_lookup. by intros [= <-].
  - intros Hc Hk. destruct (write_batches_lookup _ _ _ _ _ _ _ Hc Hk) as [Hold|?]; [|done].
    by rewrite recreated_lookup in Hold.
Qed.

Lemma store_outcomes_written known ios p :
  Forall (written_for known) (metadatas p) →
  Forall (λ io : work_item * (list EmbedRequest * option Embedding),
            item_exp io.1 ∈ known
            ∧ Ingest.create_star_format_text (item_exp io.1)
              = Ok (item_star_format io.1)) ios →
  Forall (written_for known) (metadatas (foldl store_outcome p ios)).
Proof.
  revert p. induction ios as [|[item [requests [v|]]] ios IH];
    intros p Hp Hios; cbn [foldl]; [done|..];
    apply Forall_cons in Hios as [[Hexp Hstar] Hios]; apply IH; try done.
  unfold store_outcome. cbn. apply Forall_app. split; [done|]. repeat constructor.
  by exists (item_exp item), (item_chunk_idx item), (item_total_chunks item),
    (item_star_format item).
Qed.

Lemma process_experiences_written known sv experiences p w w' p' :
  Ingest.process_experiences sv experiences p w = (w', Ok p') →
  experiences ⊆ known →
  Forall (written_for known) (metadatas p) →
  Forall (written_for known) (metadatas p').
Proof.
  revert p w. induction experiences as [|exp experiences IH]; intros p w.
  - by intros [= _ <-].
  - cbn [Ingest.process_experiences]. unfold bind at 1, lift.
    destruct (Ingest.description_chunks sv exp) as [chunks|e]; [|done].
    unfold bind.
    destruct (Ingest.process_chunks sv exp (length chunks) (enumerate chunks) p w)
      as [w1 [p1|e]] eqn:Hchunks; [|done].
    intros Hrest Hsub Hp. apply (IH _ _ Hrest); [set_solver|].
    apply process_chunks_returns in Hchunks as [->|(star_format & Hstar & ->)];
      [done|].
    apply store_outcomes_written; [done|].
    apply Forall_forall. intros [item out] Hin%elem_of_zip_l.
    apply list_elem_of_fmap in Hin as (it & -> & _). cbn. split; [set_solver|done].
Qed.

Lemma make_experience_written known metadata :
  written_for known metadata →
  ∃ e, summarises known e
       ∧ RagApi.make_experience (RagApi.experience_id_of metadata) metadata = Ok e.
Proof.
  intros (exp & idx & total & star_format & Hexp & Hstar & ->).
  exists (summary_of exp star_format). split; [by exists exp, star_format|done].
Qed.

(** The store after a run of [main] that builds the collection holds, in
    [experience_store], only entries written for the experiences of the
    run. *)
Lemma main_builds_written sv experiences answer w :
  has_api_key w = true →
  builds_index w answer →
  ∃ client c,
    chroma_db (Ingest.main sv experiences answer w).1 = Some client
    ∧ client !! "experience_store" = Some c
    ∧ ∀ k e, c !! k = Some e → written_for experiences (entry_metadata e).
Proof.
  intros Hkey Hbuilds. rewrite (main_builds _ _ _ _ Hkey Hbuilds).
  destruct (Ingest.process_experiences sv experiences no_pending _) as [w1 [p|err]] eqn:Hrun;
    cbn [snd].
  - destruct (filled_lookup p (recreated (default ∅ (chroma_db w)))) as [c Hc].
    { rewrite recreated_lookup. eauto. }
    eexists _, c. split_and!; [done|exact Hc|].
    intros k e Hk. pose proof (filled_lookup_entry _ _ _ _ _ Hc Hk) as Hin.
    assert (Forall (written_for experiences) (metadatas p)) as Hall
      by (by apply (process_experiences_written experiences _ _ _ _ _ _ Hrun);
             [|constructor]).
    rewrite Forall_forall in Hall. by apply Hall.
  - eexists _, ∅. split_and!; [done|apply recreated_lookup|]. intros k e Hk.
    by rewrite lookup_empty in Hk.
Qed.

Lemma map_result_Forall {A B} (f : A → result B) (P : B → Prop) (xs : list A) :
  (∀ x, x ∈ xs → ∃ y, f x = Ok y ∧ P y) →
  ∃ l, map_result f xs = Ok l ∧ Forall P l.
Proof.
  induction xs as [|x xs IH]; intros Hxs; cbn [map_result].
  - by exists [].
  - destruct (Hxs x) as (y & -> & Hy); [left|].
    destruct IH as (l & -> & Hl); [intros x' Hx'; apply Hxs; by right|].
    exists (y :: l). by split; [|constructor].
Qed.

Lemma has_api_key_serving w client c :
  has_api_key w = true →
  chroma_db w = Some client →
  client !! "experience_store" = Some c →
  serving w c.
Proof.
  unfold has_api_key. intros Hkey Hdb Hc. split; [|by exists client].
  destruct (GEMINI_API_KEY w) as [api_key|]; [by exists api_key|done].
Qed.

(** X14: from the ingestion to the endpoint.  After a run of [ingest.main]
    that builds the collection, every call of the endpoint that gets its
    query vector returns, and each entry it returns is the summary of one
    of the experiences of the run: its [id], [title] and [company], and as
    [star_format] the STAR text that [create_star_format_text] returns for
    it, rebuilt from the metadata of the chunk alone. *)
Theorem retrieve_returns_ingested sv experiences answer request w q :
  has_api_key w = true →
  builds_index w answer →
  (RagApi.get_embedding sv (RagApi.query request)
     (Ingest.main sv experiences answer w).1).2 = Ok q →
  ∃ l,
    (RagApi.retrieve_experiences sv request (Ingest.main sv experiences answer w).1).2
    = Ok (RagApi.MkRetrieveResponse l)
    ∧ Forall (summarises experiences) l.
Proof.
  intros Hkey Hbuilds Hq.
  destruct (main_builds_written sv experiences answer w Hkey Hbuilds)
    as (client & c & Hdb & Hc & Hwritten).
  pose proof (main_frame sv experiences answer w) as Hkey1. rewrite Hkey in Hkey1.
  pose proof (has_api_key_serving _ _ _ Hkey1 Hdb Hc) as Hs.
  rewrite (retrieve_experiences_serving _ _ _ _ Hs).
  destruct (RagApi.get_embedding _ _ _) as [w2 r]. cbn in Hq. subst r. cbn [snd].
  rewrite format_results_spec.
  destruct (map_result_Forall experience_of_candidate (summarises experiences)
              (take (Z.to_nat (RagApi.top_k request))
                    (first_occurrence_wins candidate_key
                       (candidates_of sv c q (RagApi.top_k request)))))
    as (l & -> & Hl); [|by exists l].
  intros x Hx. apply subseteq_take in Hx.
  eapply elem_of_sublist in Hx; [|apply first_occurrence_wins_sublist].
  unfold candidates_of in Hx. apply list_elem_of_fmap in Hx as (kv & -> & Hkv).
  apply subseteq_take, ranking_entries in Hkv.
  destruct (make_experience_written experiences (entry_metadata kv.2))
    as (e & He & Hmake); [by eapply Hwritten|].
  by exists e.
Qed.

Lemma retrieve_returns_ingested_witness :
  has_api_key Sample.fresh = true
  ∧ builds_index Sample.fresh ""
  ∧ (RagApi.get_embedding Sample.up "conflict"
       (Ingest.main Sample.up [Sample.experience1] "" Sample.fresh).1).2 = Ok [0]
  ∧ (RagApi.retrieve_experiences Sample.up (RagApi.MkRetrieveRequest "conflict" 3)
       (Ingest.main Sample.up [Sample.experience1] "" Sample.fresh).1).2
    = Ok (RagApi.MkRetrieveResponse
            [RagApi.MkExperience 1 "Title" "Company" sample_star_format]).
Proof.
  assert (builds_index Sample.fresh "") as Hbuilds by (left; reflexivity).
  split; [reflexivity|]. split; [exact Hbuilds|]. split; [reflexivity|].
  destruct (retrieve_returns_ingested Sample.up [Sample.experience1] ""
              (RagApi.MkRetrieveRequest "conflict" 3) Sample.fresh [0]
              eq_refl Hbuilds eq_refl) as (l & Hl & _).
  rewrite Hl. f_equal. vm_compute in Hl. by injection Hl as <-.
Defined.

(** ** The size of the index after a run *)

Lemma write_entries_size_le (c : Collection) (E : list (string * IndexEntry)) :
  (size (foldl write_entry c E) ≤ size c + length E)%nat.
Proof.
  revert c. induction E as [|[k e] E IH]; intros c; cbn [foldl length]; [lia|].
  etrans; [apply IH|]. unfold write_entry. cbn [fst snd].
  rewrite map_size_insert. destruct (c !! k); cbn [id]; lia.
Qed.

Lemma write_entries_size (c : Collection) (E : list (string * IndexEntry)) :
  NoDup E.*1 →
  (∀ k, k ∈ E.*1 → c !! k = None) →
  size (foldl write_entry c E) = (size c + length E)%nat.
Proof.
  revert c. induction E as [|[k e] E IH]; intros c Hnd Hfresh; cbn [foldl length]; [lia|].
  rewrite fmap_cons in Hnd. apply NoDup_cons in Hnd as [Hk Hnd].
  rewrite IH; [| done |].
  - unfold write_entry. cbn [fst snd]. rewrite map_size_insert_None; [lia|].
    apply Hfresh. left.
  - intros k' Hk'. unfold write_entry. cbn [fst snd].
    rewrite lookup_insert_ne by (intros ->; done). apply Hfresh. by right.
Qed.

Lemma pending_entries_ids p : pending_ok p → (pending_entries p).*1 = ids p.
Proof.
  intros (He & Hd & Hm). unfold pending_entries, entries_of. apply fst_zip.
  rewrite !length_zip_with. lia.
Qed.

Lemma embed_logged_with_chroma_db w client requests :
  embed_logged (with_chroma_db w client) requests
  = with_chroma_db (embed_logged w requests) client.
Proof. done. Qed.

(** The loops do not look at the store. *)
Lemma process_chunks_with_chroma_db sv exp total chunks p w client :
  Ingest.process_chunks sv exp total chunks p (with_chroma_db w client)
  = (with_chroma_db (Ingest.process_chunks sv exp total chunks p w).1 client,
     (Ingest.process_chunks sv exp total chunks p w).2).
Proof.
  revert p w. induction chunks as [|[chunk_idx text] chunks IH]; intros p w; [done|].
  cbn [Ingest.process_chunks]. unfold bind at 1 3 5. rewrite !ingest_try_get_embedding.
  change (embed_log (with_chroma_db w client)) with (embed_log w).
  rewrite embed_logged_with_chroma_db.
  destruct (attempt sv (embed_log w) text) as [requests [v|]]; cbn [fst snd];
    [|apply IH].
  unfold bind, lift.
  destruct (Ingest.create_star_format_text exp) as [star_format|e]; [apply IH|done].
Qed.

Lemma process_experiences_with_chroma_db sv experiences p w client :
  Ingest.process_experiences sv experiences p (with_chroma_db w client)
  = (with_chroma_db (Ingest.process_experiences sv experiences p w).1 client,
     (Ingest.process_experiences sv experiences p w).2).
Proof.
  revert p w. induction experiences as [|exp experiences IH]; intros p w; [done|].
  cbn [Ingest.process_experiences]. unfold bind at 1 3 5, lift.
  destruct (Ingest.description_chunks sv exp) as [chunks|e]; [|done].
  unfold bind. rewrite process_chunks_with_chroma_db.
  destruct (Ingest.process_chunks sv exp (length chunks) (enumerate chunks) p w)
    as [w1 [p1|e]]; cbn [fst snd]; [|done].
  rewrite IH. by destruct (Ingest.process_experiences sv experiences _ _).
Qed.

Lemma main_builds_collection sv experiences answer w w' p :
  has_api_key w = true →
  builds_index w answer →
  Ingest.process_experiences sv experiences no_pending w = (w', Ok p) →
  chroma_db (Ingest.main sv experiences answer w).1
  = Some match ids p with
         | [] => recreated (default ∅ (chroma_db w))
         | _ :: _ =>
           <[Ingest.collection_name :=
               foldl write_entry ∅ (pending_entries p)]>
             (recreated (default ∅ (chroma_db w)))
         end
  ∧ pending_ok p.
Proof.
  intros Hkey Hbuilds Hrun.
  assert (pending_ok p) as Hok.
  { apply process_experiences_extends in Hrun. by eapply extends_pending_ok. }
  split; [|done].
  rewrite (main_builds _ _ _ _ Hkey Hbuilds), process_experiences_with_chroma_db, Hrun.
  cbn [snd]. rewrite filled_is_add by done.
  destruct (ids p) eqn:Hids; [done|]. by rewrite recreated_lookup, <-Hids.
Qed.

(** X15: the size of the index after a run.  A run of [ingest.main] that
    builds the collection leaves in it at most as many entries as the loop
    had pending at its end (the number of "Successfully ingested ... chunks"),
    and exactly as many when the experiences have pairwise different
    [id]s; with the store's write modelled as the spec's upsert. *)
Theorem index_size_is_pending_count sv experiences answer w w' p :
  has_api_key w = true →
  builds_index w answer →
  Ingest.process_experiences sv experiences no_pending w = (w', Ok p) →
  ∃ n, index_size (Ingest.main sv experiences answer w).1 = Some n
       ∧ (n ≤ length (ids p))%nat
       ∧ (NoDup (Ingest.exp_id <$> experiences) → n = length (ids p)).
Proof.
  intros Hkey Hbuilds Hrun.
  destruct (main_builds_collection _ _ _ _ _ _ Hkey Hbuilds Hrun) as [Hdb Hok].
  unfold index_size. rewrite Hdb. cbn [mbind option_bind].
  pose proof (pending_entries_length p Hok) as Hlen.
  destruct (ids p) as [|chunk_id rest] eqn:Hids.
  - rewrite recreated_lookup. exists 0%nat. cbn. by rewrite map_size_empty.
  - rewrite lookup_insert_eq. cbn [mbind option_bind]. eexists. split; [done|].
    rewrite <-Hids in Hlen |- *. split.
    + etrans; [apply write_entries_size_le|]. rewrite map_size_empty. lia.
    + intros Hexps. rewrite write_entries_size, map_size_empty; [lia| |done].
      rewrite pending_entries_ids by done.
      apply (process_experiences_ids _ _ _ _ _ _ Hrun Hexps); [constructor|].
      intros exp idx _. apply not_elem_of_nil.
Qed.

Lemma index_size_is_pending_count_witness :
  has_api_key Sample.fresh = true
  ∧ builds_index Sample.fresh ""
  ∧ Ingest.process_experiences Sample.up [Sample.experience1] no_pending Sample.fresh
    = (sample_world_after, Ok sample_pending)
  ∧ index_size (Ingest.main Sample.up [Sample.experience1] "" Sample.fresh).1
    = Some 1%nat.
Proof.
  assert (builds_index Sample.fresh "") as Hbuilds by (left; reflexivity).
  assert (Ingest.process_experiences Sample.up [Sample.experience1] no_pending
            Sample.fresh = (sample_world_after, Ok sample_pending)) as Hrun
    by (vm_compute; reflexivity).
  split; [reflexivity|]. split; [exact Hbuilds|]. split; [exact Hrun|].
  destruct (index_size_is_pending_count Sample.up [Sample.experience1] ""
              Sample.fresh sample_world_after sample_pending eq_refl Hbuilds Hrun)
    as (n & Hn & _ & Heq).
  rewrite Hn. f_equal. apply Heq. cbn. apply NoDup_singleton.
Defined.

(** ** What the ingestion scripts leave alone *)

Lemma ingestion_step_refl name w : ingestion_step name w w.
Proof.
  split_and!; [done..| |done]. exists []. by rewrite app_nil_r.
Qed.

Lemma ingestion_step_trans name w1 w2 w3 :
  ingestion_step name w1 w2 → ingestion_step name w2 w3 → ingestion_step name w1 w3.
Proof.
  intros (Hk1 & Hq1 & (r1 & He1 & Hr1) & Hc1) (Hk2 & Hq2 & (r2 & He2 & Hr2) & Hc2).
  split_and!; [congruence..| |].
  - exists (r1 ++ r2). split; [by rewrite He2, He1, app_assoc|by apply Forall_app].
  - intros name' Hne. by rewrite Hc2, Hc1.
Qed.

Lemma ingestion_step_requests name w requests :
  Forall document_request requests → ingestion_step name w (embed_logged w requests).
Proof. intros Hall. split_and!; [done..| |done]. by exists requests. Qed.

Lemma ingestion_step_store name w client :
  (∀ name', name' ≠ name → client !! name' = default ∅ (chroma_db w) !! name') →
  ingestion_step name w (with_chroma_db w client).
Proof.
  intros Hc. split_and!; [done..| |exact Hc]. exists []. by rewrite app_nil_r.
Qed.

Lemma process_experiences_step name sv experiences p w :
  ingestion_step name w (Ingest.process_experiences sv experiences p w).1.
Proof.
  destruct (process_experiences_frame sv experiences p w) as (requests & -> & Hdoc).
  by apply ingestion_step_requests.
Qed.

Lemma process_qa_step name sv qa i p w :
  ingestion_step name w (IngestTechnicalQa.process_qa sv qa i p w).1.
Proof.
  unfold IngestTechnicalQa.process_qa.
  destruct (decide (500 < PyStr.len (default "" (IngestTechnicalQa.qa_answer qa)))).
  - unfold bind at 1, lift.
    destruct (IngestTechnicalQa.chunk_text sv _ 300 50) as [chunks|e];
      [|apply ingestion_step_refl].
    rewrite process_answer_chunks_outcomes.
    apply ingestion_step_requests, outcomes_document.
  - unfold bind. rewrite qa_try_get_embedding.
    pose proof (attempt_document sv (embed_log w)
                  (IngestTechnicalQa.create_text_for_embedding qa)) as Hdoc.
    destruct (attempt sv (embed_log w) _) as [requests [v|]];
      by apply ingestion_step_requests.
Qed.

Lemma process_qa_pairs_step name sv qa_pairs i p w :
  ingestion_step name w (IngestTechnicalQa.process_qa_pairs sv qa_pairs i p w).1.
Proof.
  revert i p w. induction qa_pairs as [|qa qa_pairs IH]; intros i p w.
  - apply ingestion_step_refl.
  - cbn [IngestTechnicalQa.process_qa_pairs]. unfold bind.
    pose proof (process_qa_step name sv qa i p w) as Hqa.
    destruct (IngestTechnicalQa.process_qa sv qa i p w) as [w1 [p1|e]]; [|exact Hqa].
    eapply ingestion_step_trans; [exact Hqa|apply IH].
Qed.

Lemma prepare_collection_step name answer w :
  ∃ w1 proceed, prepare_collection name answer w = (w1, Ok proceed)
                ∧ ingestion_step name w w1.
Proof.
  unfold prepare_collection, bind, open_chroma_db, set_chroma_db, ret, get_collection.
  fold (with_chroma_db w (default ∅ (chroma_db w))).
  destruct (default ∅ (chroma_db w) !! name) eqn:Hc; [case_bool_decide|];
    eexists _, _; (split; [reflexivity|]);
    match goal with |- ingestion_step _ _ (MkWorld _ (Some ?client) _ _) =>
      change (ingestion_step name w (with_chroma_db w client)) end;
    apply ingestion_step_store; intros name' Hne;
    unfold create_collection, delete_collection;
    rewrite ?lookup_insert_ne, ?lookup_delete_ne by done; done.
Qed.

Lemma lookup_write_batches_ne name p idxs (client : Client) name' :
  name' ≠ name → foldl (write_batch name p) client idxs !! name' = client !! name'.
Proof.
  intros Hne. revert client. induction idxs as [|b idxs IH]; intros client; [done|].
  cbn [foldl]. rewrite IH. unfold write_batch. by rewrite lookup_insert_ne.
Qed.

Lemma batch_add_step name p w :
  (batch_add name p w).2 = Ok tt ∧ ingestion_step name w (batch_add name p w).1.
Proof.
  unfold batch_add. destruct (ids p); [split; [done|apply ingestion_step_refl]|].
  rewrite store_batches_run. split; [done|].
  destruct (seq 0 _); [apply ingestion_step_refl|].
  apply ingestion_step_store. intros name' Hne. by apply lookup_write_batches_ne.
Qed.

Lemma ingest_main_step sv experiences answer w :
  ingestion_step Ingest.collection_name w (Ingest.main sv experiences answer w).1.
Proof.
  unfold Ingest.main, bind at 1, getenv_GEMINI_API_KEY.
  destruct (negb _); [apply ingestion_step_refl|].
  destruct (prepare_collection_step Ingest.collection_name answer w)
    as (w1 & proceed & Hprep & Hstep).
  unfold bind at 1. rewrite Hprep. destruct proceed; [|exact Hstep].
  eapply ingestion_step_trans; [exact Hstep|]. unfold bind.
  pose proof (process_experiences_step Ingest.collection_name sv experiences
                no_pending w1) as Hloop.
  destruct (Ingest.process_experiences sv experiences no_pending w1) as [w2 [p|e]];
    [|exact Hloop].
  eapply ingestion_step_trans; [exact Hloop|apply batch_add_step].
Qed.

Lemma qa_main_step sv qa_pairs answer w :
  ingestion_step IngestTechnicalQa.collection_name w
    (IngestTechnicalQa.main sv qa_pairs answer w).1.
Proof.
  unfold IngestTechnicalQa.main, bind at 1, getenv_GEMINI_API_KEY.
  destruct (negb _); [apply ingestion_step_refl|].
  destruct qa_pairs as [|qa qa_pairs]; [apply ingestion_step_refl|].
  destruct (prepare_collection_step IngestTechnicalQa.collection_name answer w)
    as (w1 & proceed & Hprep & Hstep).
  unfold bind at 1. rewrite Hprep. destruct proceed; [|exact Hstep].
  eapply ingestion_step_trans; [exact Hstep|]. unfold bind.
  pose proof (process_qa_pairs_step IngestTechnicalQa.collection_name sv
                (qa :: qa_pairs) 1 no_pending w1) as Hloop.
  destruct (IngestTechnicalQa.process_qa_pairs sv (qa :: qa_pairs) 1 no_pending w1)
    as [w2 [p|e]]; [|exact Hloop].
  eapply ingestion_step_trans; [exact Hloop|apply batch_add_step].
Qed.

(** X16: the scripts share the store under [./chroma_db] and keep to their
    own collection.  Whatever the key, the answer at the prompt and the
    embedding service do, a run of [ingest.py] leaves every collection but
    [experience_store] as it found it; so it does not disturb the index of
    the questions and answers. *)
Theorem ingest_keeps_to_its_collection sv experiences answer w name :
  name ≠ "experience_store" →
  collection_at (Ingest.main sv experiences answer w).1 name = collection_at w name.
Proof. intros Hne. by apply (ingest_main_step sv experiences answer w). Qed.

Lemma ingest_keeps_to_its_collection_witness :
  "technical_qa" ≠ "experience_store"
  ∧ collection_at (Ingest.main Sample.up [Sample.experience1] "y"
                     (Sample.world_with Sample.small)).1 "technical_qa"
    = collection_at (Sample.world_with Sample.small) "technical_qa".
Proof.
  assert ("technical_qa" ≠ "experience_store") as Hne by done.
  split; [exact Hne|].
  apply (ingest_keeps_to_its_collection Sample.up [Sample.experience1] "y"
           (Sample.world_with Sample.small) "technical_qa" Hne).
Defined.

(** X17: the same for [ingest_technical_qa.py]: a run leaves every
    collection but [technical_qa] as it found it, the index of the
    experiences that the endpoint reads among them. *)
Theorem qa_ingest_keeps_to_its_collection sv qa_pairs answer w name :
  name ≠ "technical_qa" →
  collection_at (IngestTechnicalQa.main sv qa_pairs answer w).1 name
  = collection_at w name.
Proof. intros Hne. by apply (qa_main_step sv qa_pairs answer w). Qed.

Lemma qa_ingest_keeps_to_its_collection_witness :
  "experience_store" ≠ "technical_qa"
  ∧ collection_at (IngestTechnicalQa.main Sample.up [Sample.short_pair] "y"
                     (Sample.world_with Sample.small)).1 "experience_store"
    = Some Sample.small.
Proof.
  assert ("experience_store" ≠ "technical_qa") as Hne by done.
  split; [exact Hne|].
  rewrite (qa_ingest_keeps_to_its_collection Sample.up [Sample.short_pair] "y"
             (Sample.world_with Sample.small) "experience_store" Hne).
  reflexivity.
Defined.

(** X18: what the ingestion scripts send.  Every request that a run of
    [ingest.py] or of [ingest_technical_qa.py] adds to the traffic with the
    embedding service goes to [models/embedding-001] with the task type
    [retrieval_document] or with none; the run sends no query to the
    store and leaves the key as it is. *)
Theorem ingestion_sends_document_requests sv experiences qa_pairs answer w :
  let after_ingest := (Ingest.main sv experiences answer w).1 in
  let after_qa := (IngestTechnicalQa.main sv qa_pairs answer w).1 in
  (∃ requests, embed_log after_ingest = embed_log w ++ requests
               ∧ Forall document_request requests)
  ∧ query_log after_ingest = query_log w
  ∧ GEMINI_API_KEY after_ingest = GEMINI_API_KEY w
  ∧ (∃ requests, embed_log after_qa = embed_log w ++ requests
                 ∧ Forall document_request requests)
  ∧ query_log after_qa = query_log w
  ∧ GEMINI_API_KEY after_qa = GEMINI_API_KEY w.
Proof.
  intros after_ingest after_qa.
  destruct (ingest_main_step sv experiences answer w) as (Hk & Hq & Hr & _).
  destruct (qa_main_step sv qa_pairs answer w) as (Hk' & Hq' & Hr' & _).
  by split_and!.
Qed.

(** ** Runs that end before the loop *)

Lemma qa_main_without_key sv qa_pairs answer w :
  has_api_key w = false →
  IngestTechnicalQa.main sv qa_pairs answer w = (w, Raise (SystemExit 1)).
Proof.
  intros Hkey. unfold IngestTechnicalQa.main, bind at 1, getenv_GEMINI_API_KEY.
  unfold has_api_key in Hkey. by rewrite Hkey.
Qed.

Lemma prepare_collection_keeps name answer w client :
  chroma_db w = Some client →
  is_Some (client !! name) →
  ¬ answered_yes answer →
  prepare_collection name answer w = (w, Ok false).
Proof.
  intros Hdb [c Hc] Hno.
  unfold prepare_collection, bind, open_chroma_db, set_chroma_db, get_collection, ret.
  rewrite Hdb. cbn [from_option id]. rewrite Hc.
  unfold answered_yes in Hno. rewrite bool_decide_eq_false_2 by done.
  destruct w. cbn in *. by subst.
Qed.

(** X19: without the key nothing is done.  When [GEMINI_API_KEY] is unset
    or empty, both ingestion scripts exit with status 1 before they open
    the store, read the prompt or send a request: the world is as it was,
    whatever corpus and store there are. *)
Theorem ingestion_without_key sv experiences qa_pairs answer w :
  has_api_key w = false →
  Ingest.main sv experiences answer w = (w, Raise (SystemExit 1))
  ∧ IngestTechnicalQa.main sv qa_pairs answer w = (w, Raise (SystemExit 1)).
Proof.
  intros Hkey. split; [by apply main_without_key|by apply qa_main_without_key].
Qed.

Lemma ingestion_without_key_witness :
  has_api_key (MkWorld (Some "") None [] []) = false
  ∧ (Ingest.main Sample.up [Sample.experience1] "y" (MkWorld (Some "") None [] [])).2
    = Raise (SystemExit 1).
Proof.
  split; [reflexivity|].
  destruct (ingestion_without_key Sample.up [Sample.experience1] [Sample.short_pair]
              "y" (MkWorld (Some "") None [] []) eq_refl) as [-> _].
  reflexivity.
Defined.

(** X20: a declined run of [ingest.py] changes nothing.  When the
    collection [experience_store] is there and the line typed at the
    prompt, stripped and in lower case, is not [y], the script returns
    without a request to the embedding service and without a write: the
    world is as it was, whatever else the store holds. *)
Theorem declined_run_changes_nothing sv experiences answer w client :
  has_api_key w = true →
  chroma_db w = Some client →
  is_Some (client !! "experience_store") →
  ¬ answered_yes answer →
  Ingest.main sv experiences answer w = (w, Ok tt).
Proof. apply main_keeps. Qed.

Lemma declined_run_changes_nothing_witness :
  has_api_key (Sample.world_with Sample.small) = true
  ∧ ¬ answered_yes "no"
  ∧ Ingest.main Sample.up [Sample.experience1] "no" (Sample.world_with Sample.small)
    = (Sample.world_with Sample.small, Ok tt).
Proof.
  assert (¬ answered_yes "no") as Hno by (by vm_compute).
  split; [reflexivity|]. split; [exact Hno|].
  apply (declined_run_changes_nothing Sample.up [Sample.experience1] "no"
           (Sample.world_with Sample.small) {["experience_store" := Sample.small]}
           eq_refl eq_refl); [|exact Hno].
  exists Sample.small. apply lookup_singleton_eq.
Defined.

(** X23: a declined run of [ingest_technical_qa.py] changes nothing.  When
    the collection [technical_qa] is there and the line typed at the
    prompt, stripped and in lower case, is not [y], the script returns
    without a request to the embedding service and without a write: the
    world is as it was, whatever else the store holds. *)
Theorem qa_declined_run_changes_nothing sv qa_pairs answer w client :
  has_api_key w = true →
  chroma_db w = Some client →
  is_Some (client !! "technical_qa") →
  ¬ answered_yes answer →
  IngestTechnicalQa.main sv qa_pairs answer w = (w, Ok tt).
Proof.
  intros Hkey Hdb Hqa Hno.
  unfold IngestTechnicalQa.main, bind at 1, getenv_GEMINI_API_KEY.
  unfold has_api_key in Hkey. rewrite Hkey. cbn [negb].
  destruct qa_pairs as [|qa qa_pairs]; [done|].
  unfold bind.
  by rewrite (prepare_collection_keeps IngestTechnicalQa.collection_name answer w
                client Hdb Hqa Hno).
Qed.

Lemma qa_declined_run_changes_nothing_witness :
  has_api_key sample_qa_only = true
  ∧ ¬ answered_yes "no"
  ∧ IngestTechnicalQa.main Sample.up [Sample.short_pair] "no" sample_qa_only
    = (sample_qa_only, Ok tt).
Proof.
  assert (¬ answered_yes "no") as Hno by (by vm_compute).
  split; [reflexivity|]. split; [exact Hno|].
  apply (qa_declined_run_changes_nothing Sample.up [Sample.short_pair] "no"
           sample_qa_only {["technical_qa" := ∅]} eq_refl eq_refl); [|exact Hno].
  exists ∅. apply lookup_singleton_eq.
Defined.



(** ** The metadata of a question and its answer *)

Lemma slice_to_head n s :
  ∃ rest, s = PyStr.slice_to n s +:+ rest
          ∧ String.length (PyStr.slice_to n s) = (n `min` String.length s)%nat.
Proof.
  unfold PyStr.slice_to. revert n. induction s as [|c s IH]; intros [|n]; cbn.
  - by exists "".
  - by exists "".
  - by exists (String c s).
  - destruct (IH n) as (rest & Hrest & Hlen). exists rest. split; [|lia].
    change (String c s = String c (substring 0 n s +:+ rest)). by rewrite <-Hrest.
Qed.

Lemma qa_metadata_heads qa i chunk_index total_chunks :
  holds_head (IngestTechnicalQa.metadata_of qa i chunk_index total_chunks) "answer" 500
             (default "" (IngestTechnicalQa.qa_answer qa))
  ∧ holds_head (IngestTechnicalQa.metadata_of qa i chunk_index total_chunks) "question"
               200 (default "" (IngestTechnicalQa.qa_question qa)).
Proof.
  split.
  - destruct (slice_to_head 500 (default "" (IngestTechnicalQa.qa_answer qa)))
      as (rest & Hrest & Hlen).
    eexists _, rest. split; [reflexivity|]. split; [exact Hrest|].
    unfold PyStr.len. rewrite Hlen. lia.
  - destruct (slice_to_head 200 (default "" (IngestTechnicalQa.qa_question qa)))
      as (rest & Hrest & Hlen).
    eexists _, rest. split; [reflexivity|]. split; [exact Hrest|].
    unfold PyStr.len. rewrite Hlen. lia.
Qed.

Lemma store_answer_outcomes_metadatas qa i total ios p :
  ∃ added,
    metadatas (foldl (store_answer_outcome qa i total) p ios) = metadatas p ++ added
    ∧ Forall (λ m, ∃ chunk_index total_chunks,
                m = IngestTechnicalQa.metadata_of qa i chunk_index total_chunks) added.
Proof.
  revert p. induction ios as [|[[idx text] [requests [v|]]] ios IH];
    intros p; cbn [foldl store_answer_outcome].
  - exists []. by rewrite app_nil_r.
  - destruct (IH (append_entry p (IngestTechnicalQa.chunk_id_of qa i idx) v
                    (IngestTechnicalQa.chunk_text_content qa idx text)
                    (IngestTechnicalQa.metadata_of qa i (Z.of_nat idx) (Z.of_nat total))
                    0)) as (added & -> & Hadded).
    eexists (_ :: added). cbn. rewrite <-app_assoc. split; [done|].
    constructor; eauto.
  - apply IH.
Qed.

Lemma process_qa_metadatas sv qa i p w w' p' :
  IngestTechnicalQa.process_qa sv qa i p w = (w', Ok p') →
  ∃ added,
    metadatas p' = metadatas p ++ added
    ∧ Forall (λ m, ∃ chunk_index total_chunks,
                m = IngestTechnicalQa.metadata_of qa i chunk_index total_chunks) added.
Proof.
  unfold IngestTechnicalQa.process_qa.
  destruct (decide (500 < PyStr.len (default "" (IngestTechnicalQa.qa_answer qa)))).
  - unfold bind at 1, lift.
    destruct (IngestTechnicalQa.chunk_text sv _ 300 50) as [chunks|e]; [|done].
    rewrite process_answer_chunks_outcomes. intros [= _ <-].
    apply store_answer_outcomes_metadatas.
  - unfold bind. rewrite qa_try_get_embedding.
    destruct (attempt sv (embed_log w) _).2; intros [= _ <-].
    + eexists [_]. split; [done|]. repeat constructor. eauto.
    + exists []. by rewrite app_nil_r.
Qed.

(** X21: what the metadata of a question and its answer keeps of them.
    Every entry that the loop body of [ingest_technical_qa.py] appends for
    a pair holds, under [answer], the first 500 characters of the answer
    and, under [question], the first 200 of the question: all of the text
    when it is no longer than that, a proper head otherwise.  As an answer
    is chunked exactly when it has more than 500 characters, the entries of
    a chunked answer never hold all of it. *)
Theorem qa_metadata_keeps_heads sv qa i p w w' p' :
  IngestTechnicalQa.process_qa sv qa i p w = (w', Ok p') →
  ∃ added,
    metadatas p' = metadatas p ++ added
    ∧ Forall (λ m, holds_head m "answer" 500
                     (default "" (IngestTechnicalQa.qa_answer qa))
                   ∧ holds_head m "question" 200
                       (default "" (IngestTechnicalQa.qa_question qa))) added.
Proof.
  intros Hrun. destruct (process_qa_metadatas _ _ _ _ _ _ _ Hrun) as (added & Hp' & Hall).
  exists added. split; [done|].
  eapply Forall_impl; [exact Hall|]. intros m (ci & tc & ->). apply qa_metadata_heads.
Qed.

Lemma qa_metadata_keeps_heads_witness :
  IngestTechnicalQa.process_qa Sample.up Sample.short_pair 1 no_pending Sample.fresh
  = (sample_qa_world_after, Ok sample_qa_pending)
  ∧ ∃ added,
      metadatas sample_qa_pending = [] ++ added
      ∧ Forall (λ m, holds_head m "answer" 500
                       "A lock that one thread holds at a time."
                     ∧ holds_head m "question" 200 "What is a mutex?") added.
Proof.
  assert (IngestTechnicalQa.process_qa Sample.up Sample.short_pair 1 no_pending
            Sample.fresh = (sample_qa_world_after, Ok sample_qa_pending)) as Hrun
    by (vm_compute; reflexivity).
  split; [exact Hrun|].
  apply (qa_metadata_keeps_heads Sample.up Sample.short_pair 1 no_pending Sample.fresh
           sample_qa_world_after sample_qa_pending Hrun).
Defined.

(** ** The ids of the questions and answers *)

Lemma occurs_app c a b : occurs c (a +:+ b) = occurs c a || occurs c b.
Proof.
  induction a as [|c' a IH]; [done|].
  change (occurs c (String c' (a +:+ b)) = occurs c (String c' a) || occurs c b).
  cbn [occurs]. by rewrite IH, orb_assoc.
Qed.

Lemma qa_entry_id_number qa i qa' i' chunk_id :
  qa_entry_id qa i chunk_id →
  qa_entry_id qa' i' chunk_id →
  IngestTechnicalQa.id_of qa i = IngestTechnicalQa.id_of qa' i'.
Proof.
  assert (∀ z z' r, PyStr.of_int z ≠ PyStr.of_int z' +:+ String underscore r) as Hmix.
  { intros z z' r Heq. pose proof (of_int_no_underscore z) as Hz.
    rewrite Heq, occurs_app in Hz. cbn [occurs] in Hz.
    rewrite bool_decide_eq_true_2 in Hz by done. by rewrite orb_true_r in Hz. }
  unfold qa_entry_id, IngestTechnicalQa.single_id_of, IngestTechnicalQa.chunk_id_of.
  intros [->|[idx ->]] [Heq|[idx' Heq]];
    apply (inj (String.app "qa_")) in Heq.
  - by apply (inj pretty) in Heq.
  - by apply Hmix in Heq.
  - symmetry in Heq. by apply Hmix in Heq.
  - change "_chunk_" with (String underscore "chunk_") in Heq.
    change (?a +:+ String underscore "chunk_" +:+ ?b)
      with (a +:+ String underscore ("chunk_" +:+ b)) in Heq.
    apply split_at_underscore in Heq as [Hid _]; [|apply of_int_no_underscore..].
    by apply (inj pretty) in Hid.
Qed.

Lemma qa_chunk_id_of_index qa i chunk_idx chunk_idx' :
  IngestTechnicalQa.chunk_id_of qa i chunk_idx
  = IngestTechnicalQa.chunk_id_of qa i chunk_idx' →
  chunk_idx = chunk_idx'.
Proof.
  unfold IngestTechnicalQa.chunk_id_of. intros Heq.
  apply (inj (String.app "qa_")) in Heq.
  apply (inj (String.app (PyStr.of_int (IngestTechnicalQa.id_of qa i)))) in Heq.
  apply (inj (String.app "_chunk_")) in Heq.
  apply (inj pretty) in Heq. lia.
Qed.

Lemma store_answer_outcomes_ids qa i total ios p :
  ∃ s, ids (foldl (store_answer_outcome qa i total) p ios) = ids p ++ s
       ∧ s `sublist_of`
           ((λ io : (nat * string) * (list EmbedRequest * option Embedding),
               IngestTechnicalQa.chunk_id_of qa i io.1.1) <$> ios).
Proof.
  revert p. induction ios as [|[[idx text] [requests [v|]]] ios IH];
    intros p; cbn [foldl store_answer_outcome fmap list_fmap fst snd].
  - exists []. by rewrite app_nil_r.
  - match goal with |- context [foldl _ ?p' ios] =>
      destruct (IH p') as (s & -> & Hs) end.
    exists (IngestTechnicalQa.chunk_id_of qa i idx :: s). cbn. rewrite <-app_assoc.
    split; [done|]. by apply sublist_skip.
  - destruct (IH p) as (s & -> & Hs). exists s. split; [done|]. by apply sublist_cons.
Qed.

(** The ids that the loop body appends for one pair: ids of that pair, no
    two of them equal. *)
Lemma process_qa_ids sv qa i p w w' p' :
  IngestTechnicalQa.process_qa sv qa i p w = (w', Ok p') →
  ∃ s, ids p' = ids p ++ s ∧ NoDup s ∧ Forall (qa_entry_id qa i) s.
Proof.
  unfold IngestTechnicalQa.process_qa.
  destruct (decide (500 < PyStr.len (default "" (IngestTechnicalQa.qa_answer qa)))).
  - unfold bind at 1, lift.
    destruct (IngestTechnicalQa.chunk_text sv _ 300 50) as [chunks|e]; [|done].
    rewrite process_answer_chunks_outcomes. intros [= _ <-].
    match goal with |- context [foldl _ p ?ios] =>
      destruct (store_answer_outcomes_ids qa i (length chunks) ios p)
        as (s & Hs & Hsub) end.
    exists s. split; [done|].
    pose proof (fmap_of_fst_zip
                  (λ it : nat * string, IngestTechnicalQa.chunk_id_of qa i it.1)
                  (enumerate chunks)
                  (outcomes sv (embed_log w)
                     ((λ it : nat * string,
                         IngestTechnicalQa.chunk_text_content qa it.1 it.2)
                        <$> enumerate chunks))) as Hzip.
    cbn beta in Hzip. rewrite Hzip in Hsub by (by rewrite outcomes_length, !length_fmap).
    assert ((λ it : nat * string, IngestTechnicalQa.chunk_id_of qa i it.1)
              <$> enumerate chunks
            = IngestTechnicalQa.chunk_id_of qa i <$> seq 0 (length chunks)) as Hseq
      by (by rewrite <-enumerate_indices, <-list_fmap_compose).
    rewrite Hseq in Hsub. split.
    + refine (sublist_NoDup _ _ _ Hsub). apply NoDup_fmap_2_strong; [|apply NoDup_seq].
      intros x y _ _ Heq. by apply qa_chunk_id_of_index in Heq.
    + apply Forall_forall. intros id Hid. eapply elem_of_sublist in Hid; [|exact Hsub].
      apply list_elem_of_fmap in Hid as (idx & -> & _). right. eauto.
  - unfold bind. rewrite qa_try_get_embedding.
    destruct (attempt sv (embed_log w) _).2; intros [= _ <-].
    + eexists [_]. split; [done|]. split; [apply NoDup_singleton|].
      repeat constructor.
    + exists []. rewrite app_nil_r. split; [done|]. split; constructor.
Qed.

Lemma process_qa_pairs_ids sv qa_pairs i p w w' p' (known : list Z) :
  IngestTechnicalQa.process_qa_pairs sv qa_pairs i p w = (w', Ok p') →
  NoDup (known ++ qa_numbers qa_pairs i) →
  NoDup (ids p) →
  Forall (λ chunk_id, ∃ qa0 i0, qa_entry_id qa0 i0 chunk_id
                                ∧ IngestTechnicalQa.id_of qa0 i0 ∈ known) (ids p) →
  NoDup (ids p').
Proof.
  revert i p w known. induction qa_pairs as [|qa qa_pairs IH]; intros i p w known.
  - by intros [= _ <-].
  - cbn [IngestTechnicalQa.process_qa_pairs qa_numbers]. unfold bind.
    destruct (IngestTechnicalQa.process_qa sv qa i p w) as [w1 [p1|e]] eqn:Hqa; [|done].
    intros Hrest Hnum Hnd Hknown.
    apply process_qa_ids in Hqa as (s & Hp1 & Hs & Hmine).
    rewrite Forall_forall in Hknown, Hmine.
    apply (IH _ _ _ (known ++ [IngestTechnicalQa.id_of qa i]) Hrest).
    + by rewrite <-app_assoc.
    + rewrite Hp1. apply NoDup_app. split_and!; [done| |done].
      intros id Hid Hid'. destruct (Hknown id Hid) as (qa0 & i0 & Hid0 & Hin).
      pose proof (qa_entry_id_number _ _ _ _ _ Hid0 (Hmine id Hid')) as Heq.
      apply NoDup_app in Hnum as (_ & Hnum & _). apply (Hnum _ Hin).
      rewrite Heq. left.
    + rewrite Hp1. apply Forall_forall. intros id [Hid|Hid]%elem_of_app.
      * destruct (Hknown id Hid) as (qa0 & i0 & Hid0 & Hin).
        exists qa0, i0. split; [done|]. apply elem_of_app. by left.
      * exists qa, i. split; [by apply Hmine|]. apply elem_of_app. right. left.
Qed.

(** X22: the ids of the entries of [ingest_technical_qa.py].  When the
    numbers that [qa.get('id', i)] gives for the pairs of the file (the
    [id] of a pair or, without one, its position counted from 1) are
    pairwise different, no two pending entries of a run share an id:
    [qa_{id}] and [qa_{id}_chunk_{n}] name the pair and the chunk. *)
Theorem qa_pending_ids_distinct sv qa_pairs w w' p' :
  NoDup (qa_numbers qa_pairs 1) →
  IngestTechnicalQa.process_qa_pairs sv qa_pairs 1 no_pending w = (w', Ok p') →
  NoDup (ids p').
Proof.
  intros Hnum Hrun.
  apply (process_qa_pairs_ids _ _ _ _ _ _ _ [] Hrun); [done|constructor..].
Qed.

Lemma qa_pending_ids_distinct_witness :
  NoDup (qa_numbers [Sample.short_pair] 1)
  ∧ IngestTechnicalQa.process_qa_pairs Sample.up [Sample.short_pair] 1 no_pending
      Sample.fresh
    = (sample_qa_world_after, Ok sample_qa_pending)
  ∧ NoDup (ids sample_qa_pending).
Proof.
  assert (NoDup (qa_numbers [Sample.short_pair] 1)) as Hnum
    by (cbn; apply NoDup_singleton).
  assert (IngestTechnicalQa.process_qa_pairs Sample.up [Sample.short_pair] 1 no_pending
            Sample.fresh = (sample_qa_world_after, Ok sample_qa_pending)) as Hrun
    by (vm_compute; reflexivity).
  split; [exact Hnum|]. split; [exact Hrun|].
  apply (qa_pending_ids_distinct Sample.up [Sample.short_pair] Sample.fresh
           sample_qa_world_after sample_qa_pending Hnum Hrun).
Defined.
